(** * vhtml-types: the JSX type generator ([src/generate-types.ts])

    A shallow embedding of the generator script and the properties of its
    four stages (Extractor, Collector, Normalizer, Emitter).

    Strings are byte strings: an ECMAScript string is read in an
    ASCII-compatible encoding, every code unit outside ASCII being a byte
    above 127.  The regular expressions of the script only have ASCII
    letters in them, so that their matches are the same on both readings. *)

From Stdlib Require Import Ascii String.
From stdpp Require Import gmap strings list.

#[local] Set Warnings "-register-all".

Local Open Scope string_scope.
Local Open Scope list_scope.

(* stdpp keeps [String.append] folded; the proofs below compute with it. *)
#[local] Arguments String.append !_ _ / : simpl nomatch.

(** ** Characters and the regular expressions of [normalizeAttributeType] *)

Module Regex.

(** The class [\w] of ECMAScript: ASCII letters, digits and the underscore. *)
Definition isWordChar (c : ascii) : bool :=
  let n := nat_of_ascii c in
  (((48 <=? n) && (n <=? 57)) || ((65 <=? n) && (n <=? 90))
   || ((97 <=? n) && (n <=? 122)) || (n =? 95))%nat.

(** [Canonicalize] of a case-insensitive pattern without the unicode flag:
    the character is upper-cased; a character outside ASCII never becomes
    an ASCII one. *)
Definition canonicalize (c : ascii) : ascii :=
  let n := nat_of_ascii c in
  if ((97 <=? n) && (n <=? 122))%nat then ascii_of_nat (n - 32) else c.

(** The literal pattern [p] matches at the start of [s], ignoring case. *)
Fixpoint matchHereCI (p s : string) : bool :=
  match p, s with
  | EmptyString, _ => true
  | String _ _, EmptyString => false
  | String a p', String c s' =>
      Ascii.eqb (canonicalize a) (canonicalize c) && matchHereCI p' s'
  end.

(** [/p/i.test(s)] for a literal pattern [p]: a match at some position. *)
Fixpoint testCI (p s : string) : bool :=
  matchHereCI p s
  || match s with
     | EmptyString => false
     | String _ s' => testCI p s'
     end.

(** [s] with the literal prefix [w] taken off. *)
Fixpoint stripPrefix (w s : string) : option string :=
  match w, s with
  | EmptyString, _ => Some s
  | String _ _, EmptyString => None
  | String a w', String c s' =>
      if Ascii.eqb a c then stripPrefix w' s' else None
  end.

Definition headIsWord (s : string) : bool :=
  match s with
  | EmptyString => false
  | String c _ => isWordChar c
  end.

Fixpoint lastIsWord (prev : bool) (w : string) : bool :=
  match w with
  | EmptyString => prev
  | String c w' => lastIsWord (isWordChar c) w'
  end.

(** The assertion [\b] between a character that is ([true]) or is not a word
    character and the next one; the ends of the string count as not. *)
Definition wordBoundary (before after : bool) : bool := xorb before after.

(** [\bw\b] matches at the start of [s], the previous character being a word
    character or not ([prevWord]). *)
Definition matchWordHere (w : string) (prevWord : bool) (s : string) : bool :=
  wordBoundary prevWord (headIsWord s)
  && match stripPrefix w s with
     | Some rest => wordBoundary (lastIsWord prevWord w) (headIsWord rest)
     | None => false
     end.

(** [s.replace(/\bw\b/g, rep)] for a non-empty literal [w], scanning from
    the left.  After a match the scan resumes behind it: [skip] counts the
    characters of the match that are still to be passed over. *)
Fixpoint replaceScan (w rep : string) (skip : nat) (prevWord : bool)
    (s : string) : string :=
  match s with
  | EmptyString => EmptyString
  | String c s' =>
      match skip with
      | S k => replaceScan w rep k (isWordChar c) s'
      | O =>
          if matchWordHere w prevWord s
          then rep +:+ replaceScan w rep (String.length w - 1) (isWordChar c) s'
          else String c (replaceScan w rep 0 (isWordChar c) s')
      end
  end.

Definition replaceWord (w rep s : string) : string :=
  replaceScan w rep 0 false s.

End Regex.

(** ** [normalizeAttributeType] *)

Definition normalizeAttributeType (attrType : string) : string :=
  if Regex.testCI "EventHandler" attrType then "string"
  else if String.eqb attrType "ReactNode" then "any"
  else
    Regex.replaceWord "Booleanish" "(boolean | 'true' | 'false')"
      (Regex.replaceWord "CSSProperties" "string" attrType).

(** ** Words of a string

    The maximal runs of word characters of a string, and the characters
    between them: what [\b] delimits.  Only used to reason about
    [Regex.replaceWord]. *)

Module Words.

Inductive token : Type :=
  | TWord (u : string)
  | TSep (c : ascii).

Global Instance token_eq_dec : EqDecision token.
Proof. solve_decision. Defined.

Fixpoint tokenize (s : string) : list token :=
  match s with
  | EmptyString => []
  | String c s' =>
      if Regex.isWordChar c then
        match tokenize s' with
        | TWord u :: ts => TWord (String c u) :: ts
        | ts => TWord (String c EmptyString) :: ts
        end
      else TSep c :: tokenize s'
  end.

Definition tokenText (t : token) : string :=
  match t with
  | TWord u => u
  | TSep c => String c EmptyString
  end.

Fixpoint concatStrings (l : list string) : string :=
  match l with
  | [] => EmptyString
  | x :: l' => x +:+ concatStrings l'
  end.

Fixpoint allWord (u : string) : bool :=
  match u with
  | EmptyString => true
  | String c u' => Regex.isWordChar c && allWord u'
  end.

(** The leading word of a string (possibly empty) and what follows it. *)
Fixpoint spanWord (s : string) : string * string :=
  match s with
  | EmptyString => (EmptyString, EmptyString)
  | String c s' =>
      if Regex.isWordChar c then (String c (spanWord s').1, (spanWord s').2)
      else (EmptyString, s)
  end.

(** What replacing the word [w] by [rep] does to one token. *)
Definition renderToken (w rep : string) (t : token) : string :=
  match t with
  | TWord u => if String.eqb u w then rep else u
  | TSep c => String c EmptyString
  end.

Definition substToken (w rep : string) (t : token) : list token :=
  match t with
  | TWord u => if String.eqb u w then tokenize rep else [t]
  | TSep _ => [t]
  end.

Definition tokenTestCI (p : string) (t : token) : bool :=
  match t with
  | TWord u => Regex.testCI p u
  | TSep _ => false
  end.

End Words.

(** The last branch of [normalizeAttributeType]: both replacements. *)
Definition replacedTypeNames (s : string) : string :=
  Regex.replaceWord "Booleanish" "(boolean | 'true' | 'false')"
    (Regex.replaceWord "CSSProperties" "string" s).

(** ** Fatal errors

    Every failure of the script is an exception that nothing catches: the
    run stops there. *)

Inductive Error : Type :=
  | NamespaceNotFound (name : string)     (* [getNamespaceOrThrow] *)
  | InterfaceNotFound (name : string)     (* [getInterfaceOrThrow] *)
  | TypeNodeMissing                       (* [getTypeNodeOrThrow] *)
  | AssertionError (message : string)     (* [assert] *)
  | NodeForgotten                         (* a node used after its removal *)
  | FileNotFound (path : string).         (* [addSourceFileAtPath] *)

Inductive Result (A : Type) : Type :=
  | Ok (a : A)
  | Fatal (e : Error).
Arguments Ok {A} a.
Arguments Fatal {A} e.

Global Instance Result_ret : MRet Result := @Ok.
Global Instance Result_bind : MBind Result := fun A B f m =>
  match m with
  | Ok a => f a
  | Fatal e => Fatal e
  end.

Global Instance Result_fmap : FMap Result := fun A B f m =>
  match m with
  | Ok a => Ok (f a)
  | Fatal e => Fatal e
  end.

Definition assert (condition : bool) (message : string) : Result unit :=
  if condition then Ok tt else Fatal (AssertionError message).

(** [handles.forEach(body)], the body acting on a state and failing or not. *)
Fixpoint forEachM {H S : Type} (body : H -> S -> Result S)
    (handles : list H) (s : S) : Result S :=
  match handles with
  | [] => Ok s
  | h :: rest => s' ← body h s; forEachM body rest s'
  end.

(** ** Nodes with an identity

    The script keeps node objects while it edits the tree they sit in (a
    [forEach] over the array that [getProperties()] or [getExtends()]
    returned, with removals and additions inside).  A node object is modelled
    by its identity, a number, and is looked up in the list as it stands at
    the time of the call. *)

Section Nodes.
Context {A : Type} (key : A -> option nat).

Definition isNode (h : nat) (a : A) : bool := bool_decide (key a = Some h).

Definition nodeIds (l : list A) : list nat := omap key l.

Definition lookupNode (h : nat) (l : list A) : Result A :=
  match List.find (isNode h) l with
  | Some a => Ok a
  | None => Fatal NodeForgotten
  end.

Definition removeNode (h : nat) (l : list A) : list A :=
  List.filter (fun a => negb (isNode h a)) l.

Definition updateNode (h : nat) (f : A -> A) (l : list A) : list A :=
  List.map (fun a => if isNode h a then f a else a) l.

(** The identity of a new node: one that no node of [l] has, nor any of
    the node objects that the program [holds] (a removed node is still an
    object of the array that a [forEach] runs over). *)
Definition freshId (holds : list nat) (l : list A) : nat :=
  S (list_max (holds ++ nodeIds l)).
End Nodes.

(** ** The declaration tree *)

(** A node below a type annotation.  Qualified names [left.right] and
    identifiers are told apart; any other node has its source text and its
    child nodes in document order. *)
Inductive TsNode : Type :=
  | Identifier (text : string)
  | QualifiedName (l r : TsNode)
  | Syntax (text : string) (children : list TsNode).

Fixpoint getText (n : TsNode) : string :=
  match n with
  | Identifier text => text
  | QualifiedName l r => getText l +:+ "." +:+ getText r
  | Syntax text _ => text
  end.

Definition isIdentifier (n : TsNode) : bool :=
  match n with
  | Identifier _ => true
  | _ => false
  end.

Definition getChildren (n : TsNode) : list TsNode :=
  match n with
  | Identifier _ => []
  | QualifiedName l r => [l; r]
  | Syntax _ children => children
  end.

(** [node.forEachDescendant(cb)]: the descendants of the node (not the node
    itself) in document order, parents before children; the first value
    that is not falsy ends the traversal and is returned. *)
Fixpoint forEachDescendant {T : Type} (cb : TsNode -> option T)
    (node : TsNode) : option T :=
  let visit (c : TsNode) : option T :=
    match cb c with
    | Some v => Some v
    | None => forEachDescendant cb c
    end in
  match node with
  | Identifier _ => None
  | QualifiedName l r =>
      match visit l with
      | Some v => Some v
      | None => visit r
      end
  | Syntax _ children =>
      (fix each (cs : list TsNode) : option T :=
         match cs with
         | [] => None
         | c :: cs' =>
             match visit c with
             | Some v => Some v
             | None => each cs'
             end
         end) children
  end.

(** The descendants of a node in the order of the traversal. *)
Fixpoint descendants (node : TsNode) : list TsNode :=
  match node with
  | Identifier _ => []
  | QualifiedName l r => (l :: descendants l) ++ (r :: descendants r)
  | Syntax _ children =>
      (fix each (cs : list TsNode) : list TsNode :=
         match cs with
         | [] => []
         | c :: cs' => (c :: descendants c) ++ each cs'
         end) children
  end.

(** The type node that [setType(text)] puts in place.  What the text parses
    to is not modelled: nothing reads below a type that was set. *)
Definition typeNodeOfText (text : string) : TsNode := Syntax text [].

Record PropertySignatureStructure : Type := {
  name : string;
  type : option string;
  hasQuestionToken : bool;
  isReadonly : bool;
  docs : list string;
}.

Record PropertySignature : Type := {
  prop_id : nat;
  prop_name : string;
  prop_typeNode : option TsNode;
  prop_hasQuestionToken : bool;
  prop_isReadonly : bool;
  prop_docs : list string;
}.

Definition getStructure (p : PropertySignature) : PropertySignatureStructure :=
  {| name := prop_name p;
     type := getText <$> prop_typeNode p;
     hasQuestionToken := prop_hasQuestionToken p;
     isReadonly := prop_isReadonly p;
     docs := prop_docs p |}.

(** [propertySignature.set(structure)]: the node stays, its content changes.
    The text of a type goes through [getStructure()] and [set()] as it is
    when it is written on one line; the library indents the lines of a
    longer type anew, which is not modelled. *)
Definition setStructure (structure : PropertySignatureStructure)
    (p : PropertySignature) : PropertySignature :=
  {| prop_id := prop_id p;
     prop_name := name structure;
     prop_typeNode := typeNodeOfText <$> type structure;
     prop_hasQuestionToken := hasQuestionToken structure;
     prop_isReadonly := isReadonly structure;
     prop_docs := docs structure |}.

Definition setType (text : string) (p : PropertySignature) : PropertySignature :=
  {| prop_id := prop_id p;
     prop_name := prop_name p;
     prop_typeNode := Some (typeNodeOfText text);
     prop_hasQuestionToken := prop_hasQuestionToken p;
     prop_isReadonly := prop_isReadonly p;
     prop_docs := prop_docs p |}.

Definition newProperty (id : nat) (structure : PropertySignatureStructure)
    : PropertySignature :=
  {| prop_id := id;
     prop_name := name structure;
     prop_typeNode := typeNodeOfText <$> type structure;
     prop_hasQuestionToken := hasQuestionToken structure;
     prop_isReadonly := isReadonly structure;
     prop_docs := docs structure |}.

(** A member of an interface: a property signature, or any other member
    (method, call or index signature, comment) with its text. *)
Inductive TypeElement : Type :=
  | PropertyMember (p : PropertySignature)
  | OtherMember (text : string).

Definition memberKey (m : TypeElement) : option nat :=
  match m with
  | PropertyMember p => Some (prop_id p)
  | OtherMember _ => None
  end.

(** One parent of an [extends] clause: the expression and the text of its
    type arguments, brackets included (empty when there are none). *)
Record ExpressionWithTypeArguments : Type := {
  ext_id : nat;
  ext_expression : string;
  ext_typeArguments : string;
}.

Definition extendsKey (e : ExpressionWithTypeArguments) : option nat :=
  Some (ext_id e).

Definition getExtendsText (e : ExpressionWithTypeArguments) : string :=
  ext_expression e +:+ ext_typeArguments e.

Record InterfaceDeclaration : Type := {
  iface_id : nat;
  iface_name : string;
  iface_typeParameters : list string;
  iface_extends : list ExpressionWithTypeArguments;
  iface_members : list TypeElement;
}.

Record TypeAliasDeclaration : Type := {
  alias_name : string;
  alias_typeParameters : list string;
  alias_type : string;
}.

(** A statement of a source file or of a namespace body.  [BlockStatement]
    stands for the other nodes that hold statements (a function with a
    body); [OtherStatement] for what holds none. *)
Inductive Statement : Type :=
  | InterfaceStatement (i : InterfaceDeclaration)
  | TypeAliasStatement (t : TypeAliasDeclaration)
  | NamespaceStatement (name : string) (body : list Statement)
  | BlockStatement (body : list Statement)
  | OtherStatement (text : string).

Definition SourceFile : Type := list Statement.

Inductive Declaration : Type :=
  | InterfaceNode (i : InterfaceDeclaration)
  | TypeAliasNode (t : TypeAliasDeclaration).

Definition getName (n : Declaration) : string :=
  match n with
  | InterfaceNode i => iface_name i
  | TypeAliasNode t => alias_name t
  end.

(** *** Reading and editing an interface *)

Definition propertyOf (m : TypeElement) : option PropertySignature :=
  match m with
  | PropertyMember p => Some p
  | OtherMember _ => None
  end.

Definition getPropertiesOf (members : list TypeElement) : list PropertySignature :=
  omap propertyOf members.

Definition getProperties (i : InterfaceDeclaration) : list PropertySignature :=
  getPropertiesOf (iface_members i).

Definition lookupProperty (h : nat) (members : list TypeElement)
    : Result PropertySignature :=
  m ← lookupNode memberKey h members;
  match m with
  | PropertyMember p => Ok p
  | OtherMember _ => Fatal NodeForgotten
  end.

Definition updateProperty (h : nat) (f : PropertySignature -> PropertySignature)
    (members : list TypeElement) : list TypeElement :=
  updateNode memberKey h
    (fun m => match m with
              | PropertyMember p => PropertyMember (f p)
              | OtherMember _ => m
              end) members.

(** [interfaceNode.addProperty(structure)]: a new node behind every member. *)
Definition addProperty (holds : list nat)
    (structure : PropertySignatureStructure) (members : list TypeElement)
    : list TypeElement :=
  members
  ++ [PropertyMember (newProperty (freshId memberKey holds members) structure)].

(** [interfaceNode.addExtends(text)]: a new parent behind the others. *)
Definition addExtends (holds : list nat) (text : string)
    (exts : list ExpressionWithTypeArguments)
    : list ExpressionWithTypeArguments :=
  exts ++ [{| ext_id := freshId extendsKey holds exts;
              ext_expression := text;
              ext_typeArguments := "" |}].

(** *** Finding declarations by name *)

Fixpoint getNamespaceOrThrow (name : string) (statements : list Statement)
    : Result (list Statement) :=
  match statements with
  | [] => Fatal (NamespaceNotFound name)
  | NamespaceStatement n body :: rest =>
      if String.eqb n name then Ok body else getNamespaceOrThrow name rest
  | _ :: rest => getNamespaceOrThrow name rest
  end.

Fixpoint getInterfaceOrThrow (name : string) (statements : list Statement)
    : Result InterfaceDeclaration :=
  match statements with
  | [] => Fatal (InterfaceNotFound name)
  | InterfaceStatement i :: rest =>
      if String.eqb (iface_name i) name then Ok i
      else getInterfaceOrThrow name rest
  | _ :: rest => getInterfaceOrThrow name rest
  end.

(** The statements with the body of the first namespace called [name]
    edited by [f]. *)
Fixpoint editNamespace (name : string)
    (f : list Statement -> list Statement) (statements : list Statement)
    : list Statement :=
  match statements with
  | [] => []
  | NamespaceStatement n body :: rest =>
      if String.eqb n name then NamespaceStatement n (f body) :: rest
      else NamespaceStatement n body :: editNamespace name f rest
  | s :: rest => s :: editNamespace name f rest
  end.

(** ** [String.prototype.toLowerCase], on ASCII letters

    The letters [A] to [Z] are mapped to [a] to [z] and every other
    character is left as it is.  On a string of ASCII characters this is
    the method of the source; on a letter outside ASCII the method also
    maps an upper-case letter to its lower-case one, which this function
    does not.  The property names of the attribute interfaces are ASCII
    identifiers; a statement below on the value of a lower-cased name has
    the name ASCII for hypothesis. *)

Definition toLowerChar (c : ascii) : ascii :=
  let n := nat_of_ascii c in
  if ((65 <=? n) && (n <=? 90))%nat then ascii_of_nat (n + 32) else c.

Fixpoint toLowerCase (s : string) : string :=
  match s with
  | EmptyString => EmptyString
  | String c s' => String (toLowerChar c) (toLowerCase s')
  end.

(** [strings.join(separator)] *)
Fixpoint join (separator : string) (strings : list string) : string :=
  match strings with
  | [] => ""
  | [x] => x
  | x :: rest => x +:+ separator +:+ join separator rest
  end.

(** ** [getAllInterfacesAndTypeAliases] *)

Fixpoint collectStatement (c : Statement) : list Declaration :=
  match c with
  | InterfaceStatement i => [InterfaceNode i]
  | TypeAliasStatement t => [TypeAliasNode t]
  | NamespaceStatement _ body => flat_map collectStatement body
  | BlockStatement body => flat_map collectStatement body
  | OtherStatement _ => []
  end.

Definition getAllInterfacesAndTypeAliases (statements : list Statement)
    : list Declaration :=
  flat_map collectStatement statements.

(** ** [updateAttributesInterface] *)

Definition isAllowedParent (exprText : string) : bool :=
  String.eqb exprText "AriaAttributes"
  || String.eqb exprText "DOMAttributes"
  || String.eqb exprText "HTMLAttributes"
  || String.eqb exprText "MediaHTMLAttributes"
  || String.eqb exprText "SVGAttributes".

Definition unexpectedParent (interfaceName exprText : string) : string :=
  "Interface " +:+ interfaceName +:+ " has unexpected parent interface: "
  +:+ exprText.

(** The body of the loop over [getExtends()], for the parent [extendsExpr];
    [snapshot] is the array that the loop runs over. *)
Definition updateExtendsClause (interfaceName : string) (snapshot : list nat)
    (extendsExpr : nat) (exts : list ExpressionWithTypeArguments)
    : Result (list ExpressionWithTypeArguments) :=
  e ← lookupNode extendsKey extendsExpr exts;
  let exprText := ext_expression e in
  if String.eqb exprText "ClassAttributes" then
    Ok (removeNode extendsKey extendsExpr exts)
  else
    _ ← assert (isAllowedParent exprText)
          (unexpectedParent interfaceName exprText);
    Ok (addExtends snapshot exprText (removeNode extendsKey extendsExpr exts)).

Definition isDroppedProperty (propName : string) : bool :=
  String.eqb propName "defaultChecked"
  || String.eqb propName "defaultValue"
  || String.eqb propName "suppressContentEditableWarning"
  || String.eqb propName "suppressHydrationWarning".

Definition keepsItsCase (propName : string) : bool :=
  String.eqb propName "className"
  || String.eqb propName "dangerouslySetInnerHTML"
  || String.eqb propName "htmlFor".

Definition renamed (newName : string) (s : PropertySignatureStructure)
    : PropertySignatureStructure :=
  {| name := newName;
     type := type s;
     hasQuestionToken := hasQuestionToken s;
     isReadonly := isReadonly s;
     docs := docs s |}.

Definition retyped (newType : string) (s : PropertySignatureStructure)
    : PropertySignatureStructure :=
  {| name := name s;
     type := Some newType;
     hasQuestionToken := hasQuestionToken s;
     isReadonly := isReadonly s;
     docs := docs s |}.

(** The structure that the loop over the properties writes back. *)
Definition normalizeStructure (propName : string)
    (structure : PropertySignatureStructure)
    : Result PropertySignatureStructure :=
  match type structure with
  | None => Fatal (AssertionError "Unexpected structure.type type: undefined")
  | Some t =>
      let structure :=
        if negb (String.eqb propName "dangerouslySetInnerHTML")
        then retyped (normalizeAttributeType t) structure
        else structure in
      _ ← assert (String.eqb (name structure) propName) "";
      Ok (if negb (keepsItsCase propName)
          then renamed (toLowerCase propName) structure
          else structure)
  end.

(** The body of the loop over [getProperties()]; [snapshot] is the array
    that the loop runs over. *)
Definition updatePropertySignature (snapshot : list nat)
    (propertySignature : nat) (members : list TypeElement)
    : Result (list TypeElement) :=
  p ← lookupProperty propertySignature members;
  let propName := prop_name p in
  if isDroppedProperty propName then
    Ok (removeNode memberKey propertySignature members)
  else
    structure ← normalizeStructure propName (getStructure p);
    let members := updateProperty propertySignature (setStructure structure) members in
    if String.eqb propName "className" then
      Ok (addProperty snapshot (renamed "class" structure) members)
    else if String.eqb propName "htmlFor" then
      Ok (addProperty snapshot (renamed "for" structure) members)
    else Ok members.

Definition updateExtends (interfaceName : string)
    (exts : list ExpressionWithTypeArguments)
    : Result (list ExpressionWithTypeArguments) :=
  let snapshot := nodeIds extendsKey exts in
  forEachM (updateExtendsClause interfaceName snapshot) snapshot exts.

Definition updateProperties (members : list TypeElement)
    : Result (list TypeElement) :=
  let snapshot := nodeIds memberKey members in
  forEachM (updatePropertySignature snapshot) snapshot members.

Definition updateAttributesInterface (interfaceNode : InterfaceDeclaration)
    : Result InterfaceDeclaration :=
  exts ← updateExtends (iface_name interfaceNode) (iface_extends interfaceNode);
  members ← updateProperties (iface_members interfaceNode);
  Ok {| iface_id := iface_id interfaceNode;
        iface_name := iface_name interfaceNode;
        iface_typeParameters := [];
        iface_extends := exts;
        iface_members := members |}.

(** ** [extractIntrinsicElementsInterface] *)

(** The callback given to [forEachDescendant]. *)
Definition targetInterfaceIdentifier (node : TsNode) : option TsNode :=
  match node with
  | QualifiedName l r =>
      if String.eqb (getText l) "React"
         && isIdentifier r
         && negb (String.eqb (getText r) "DetailedHTMLProps")
      then Some r else None
  | _ => None
  end.

Definition getTypeNodeOrThrow (p : PropertySignature) : Result TsNode :=
  match prop_typeNode p with
  | Some typeNode => Ok typeNode
  | None => Fatal TypeNodeMissing
  end.

(** The body of the loop over the properties of [IntrinsicElements]; the
    state is the member list and the set of names. *)
Definition extractProperty (propertySignature : nat)
    (state : list TypeElement * gset string)
    : Result (list TypeElement * gset string) :=
  let '(members, propertyInterfaceNames) := state in
  p ← lookupProperty propertySignature members;
  typeNode ← getTypeNodeOrThrow p;
  match forEachDescendant targetInterfaceIdentifier typeNode with
  | None => Fatal (AssertionError "Cannot find target identifier")
  | Some target =>
      Ok (updateProperty propertySignature (setType (getText target)) members,
          propertyInterfaceNames ∪ {[ getText target ]})
  end.

(** The interface [i] with the members as the loop left them. *)
Definition withMembers (i : InterfaceDeclaration) (members : list TypeElement)
    : InterfaceDeclaration :=
  {| iface_id := iface_id i;
     iface_name := iface_name i;
     iface_typeParameters := iface_typeParameters i;
     iface_extends := iface_extends i;
     iface_members := members |}.

(** [sourceFile.getNamespaceOrThrow("global").getNamespaceOrThrow("JSX")
    .getInterfaceOrThrow("IntrinsicElements")] *)
Definition getIntrinsicElements (sourceFile : SourceFile)
    : Result InterfaceDeclaration :=
  globalNamespace ← getNamespaceOrThrow "global" sourceFile;
  jsxNamespace ← getNamespaceOrThrow "JSX" globalNamespace;
  getInterfaceOrThrow "IntrinsicElements" jsxNamespace.

Definition extractIntrinsicElementsInterface (sourceFile : SourceFile)
    : Result (InterfaceDeclaration * gset string) :=
  i ← getIntrinsicElements sourceFile;
  '(members, propertyInterfaceNames) ←
    forEachM extractProperty (nodeIds memberKey (iface_members i))
      (iface_members i, ∅);
  Ok (withMembers i members, propertyInterfaceNames).

(** ** [generateJsxTypesForVhtml] *)

(** The interfaces and type aliases that are always included. *)
Definition alwaysIncluded : list string :=
  ["AriaAttributes"; "DOMAttributes"; "HTMLAttributeReferrerPolicy";
   "HTMLAttributes"; "MediaHTMLAttributes"; "SVGAttributes"].

Definition addAll (names : list string) (set : gset string) : gset string :=
  foldl (fun acc n => acc ∪ {[ n ]}) set names.

(** The second pass: the loop over [allInterfacesAndTypeAliases]. *)
Fixpoint extractNodes (typeNamesToExtract : gset string)
    (allInterfacesAndTypeAliases : list Declaration)
    : Result (list Declaration) :=
  match allInterfacesAndTypeAliases with
  | [] => Ok []
  | n :: rest =>
      if bool_decide (getName n ∈ typeNamesToExtract) then
        match n with
        | InterfaceNode i =>
            updatedInterfaceNode ← updateAttributesInterface i;
            extracted ← extractNodes typeNamesToExtract rest;
            Ok (InterfaceNode updatedInterfaceNode :: extracted)
        | TypeAliasNode _ =>
            extracted ← extractNodes typeNamesToExtract rest;
            Ok (n :: extracted)
        end
      else extractNodes typeNamesToExtract rest
  end.

(** The type of the alias that stands for an interface without properties. *)
Definition intersectionOfExtends (i : InterfaceDeclaration) : string :=
  join "&" (map (fun e => "(" +:+ getExtendsText e +:+ ")") (iface_extends i)).

(** What the last loop adds to the [JSX] namespace for one extracted node.
    A text added by [addStatements(node.getText())] is the declaration it
    is the text of. *)
Definition emitNode (node : Declaration) : Statement :=
  match node with
  | InterfaceNode i =>
      if (length (getProperties i) =? 0)%nat then
        TypeAliasStatement {| alias_name := iface_name i;
                              alias_typeParameters := [];
                              alias_type := intersectionOfExtends i |}
      else InterfaceStatement i
  | TypeAliasNode t => TypeAliasStatement t
  end.

(** The interface that [intrinsicElementsInterface] is once the first pass
    has edited it: the very node that the walk of the second pass finds. *)
Definition sameInterface (i : InterfaceDeclaration) (n : Declaration) : bool :=
  match n with
  | InterfaceNode j => (iface_id j =? iface_id i)%nat
  | TypeAliasNode _ => false
  end.

Definition asEdited (i : InterfaceDeclaration) (n : Declaration) : Declaration :=
  if sameInterface i n then InterfaceNode i else n.

(** ... and once the second pass has, when it is itself extracted. *)
Definition asExtracted (i : InterfaceDeclaration) (extracted : list Declaration)
    : InterfaceDeclaration :=
  match List.find (sameInterface i) extracted with
  | Some (InterfaceNode j) => j
  | _ => i
  end.

(** The run on the two parsed files: the tree of the template with the
    extracted declarations in its [JSX] namespace.

    The two trees are those of two different files.  The interface that
    [addInterface(intrinsicElementsInterface.getStructure())] adds is
    written here as the interface it is printed from: the library prints
    the new one from the name, the parents and the signatures of the
    structure, the property signatures in their order, and does not carry
    the comments between the members; of the interface that is added, the
    statements below only use the name and the property signatures. *)
Definition generateJsxTypes (inputSourceFile reactSourceFile : SourceFile)
    : Result SourceFile :=
  inputGlobal ← getNamespaceOrThrow "global" inputSourceFile;
  _ ← getNamespaceOrThrow "JSX" inputGlobal;
  '(intrinsicElementsInterface, propertyInterfaceNames) ←
    extractIntrinsicElementsInterface reactSourceFile;
  let typeNamesToExtract := addAll alwaysIncluded propertyInterfaceNames in
  let allInterfacesAndTypeAliases :=
    map (asEdited intrinsicElementsInterface)
      (getAllInterfacesAndTypeAliases reactSourceFile) in
  extractedInterfaceNodes ←
    extractNodes typeNamesToExtract allInterfacesAndTypeAliases;
  let added :=
    InterfaceStatement
      (asExtracted intrinsicElementsInterface extractedInterfaceNodes)
    :: map emitNode extractedInterfaceNodes in
  Ok (editNamespace "global"
        (editNamespace "JSX" (fun statements => statements ++ added))
        inputSourceFile).

(** The run on the files.  Parsing, printing and formatting are the
    library's.  The two input paths name two files, as they do at the entry
    point: each is parsed to a tree of its own.  (For one path given twice
    the library hands out one tree, which both passes then edit; the
    statements below on the output of a run have the two paths different
    for hypothesis.) *)
Section Files.
Variable parse : string -> SourceFile.
Variable getFullText : SourceFile -> string.
Variable formatText : string -> string.

Definition addSourceFileAtPath (files : gmap string string) (path : string)
    : Result SourceFile :=
  match files !! path with
  | Some text => Ok (parse text)
  | None => Fatal (FileNotFound path)
  end.

Definition generateJsxTypesForVhtml (files : gmap string string)
    (inputTypesFile reactTypesFile outputTypesFile : string)
    : Result (gmap string string) :=
  inputSourceFile ← addSourceFileAtPath files inputTypesFile;
  reactSourceFile ← addSourceFileAtPath files reactTypesFile;
  output ← generateJsxTypes inputSourceFile reactSourceFile;
  Ok (<[outputTypesFile := formatText (getFullText output)]> files).
End Files.

(** ** What the loops of the Normalizer come to

    Closed forms of the two loops of [updateAttributesInterface], which the
    theorems below relate to the loops themselves. *)

(** The parents that stay, as bare names. *)
Definition keptParents (exts : list ExpressionWithTypeArguments) : list string :=
  List.filter (fun x => negb (String.eqb x "ClassAttributes"))
    (map ext_expression exts).

Definition isUnexpectedParent (exprText : string) : bool :=
  negb (String.eqb exprText "ClassAttributes") && negb (isAllowedParent exprText).

(** The structure that a property that is kept ends with. *)
Definition normalizedStructure (p : PropertySignature)
    : PropertySignatureStructure :=
  match normalizeStructure (prop_name p) (getStructure p) with
  | Ok structure => structure
  | Fatal _ => getStructure p
  end.

Definition processedMember (m : TypeElement) : list TypeElement :=
  match m with
  | OtherMember _ => [m]
  | PropertyMember p =>
      if isDroppedProperty (prop_name p) then []
      else [PropertyMember (setStructure (normalizedStructure p) p)]
  end.

(** The name under which a property is duplicated, if it is. *)
Definition aliasOf (propName : string) : option string :=
  if String.eqb propName "className" then Some "class"
  else if String.eqb propName "htmlFor" then Some "for"
  else None.

Definition duplicateOf (m : TypeElement) : list PropertySignatureStructure :=
  match m with
  | OtherMember _ => []
  | PropertyMember p =>
      match aliasOf (prop_name p) with
      | Some alias => [renamed alias (normalizedStructure p)]
      | None => []
      end
  end.

(** A property that the loop fails on: one that is kept and has no type. *)
Definition isUntyped (p : PropertySignature) : bool :=
  negb (isDroppedProperty (prop_name p)) && negb (bool_decide (is_Some (prop_typeNode p))).

(** ** What the Extractor looks for

    A qualified name [React.X], [X] an identifier other than
    [DetailedHTMLProps]; the first one below a type, in document order. *)

Definition isTarget (node : TsNode) : bool :=
  match node with
  | QualifiedName l r =>
      String.eqb (getText l) "React"
      && isIdentifier r
      && negb (String.eqb (getText r) "DetailedHTMLProps")
  | _ => false
  end.

Definition rightText (node : TsNode) : string :=
  match node with
  | QualifiedName _ r => getText r
  | _ => ""
  end.

Definition firstTarget (typeNode : TsNode) : option string :=
  rightText <$> List.find isTarget (descendants typeNode).

Definition targetOf (p : PropertySignature) : option string :=
  prop_typeNode p ≫= firstTarget.

Definition hasNoTarget (p : PropertySignature) : bool :=
  match targetOf p with
  | Some _ => false
  | None => true
  end.

Definition retargeted (m : TypeElement) : TypeElement :=
  match m with
  | PropertyMember p =>
      match targetOf p with
      | Some text => PropertyMember (setType text p)
      | None => m
      end
  | OtherMember _ => m
  end.

(** The first value that [cb] gives along a list. *)
Fixpoint firstSome {A T : Type} (cb : A -> option T) (l : list A) : option T :=
  match l with
  | [] => None
  | x :: l' =>
      match cb x with
      | Some v => Some v
      | None => firstSome cb l'
      end
  end.

(** ** Well-formed interfaces

    Different nodes have different identities. *)

Definition wellFormed (i : InterfaceDeclaration) : Prop :=
  NoDup (nodeIds extendsKey (iface_extends i))
  /\ NoDup (nodeIds memberKey (iface_members i)).

Global Instance wellFormed_dec i : Decision (wellFormed i).
Proof. unfold wellFormed. apply _. Defined.

(** ** Equality of strings up to the case of ASCII letters *)

Fixpoint canonicalizeString (s : string) : string :=
  match s with
  | EmptyString => EmptyString
  | String c s' => String (Regex.canonicalize c) (canonicalizeString s')
  end.

Definition sameIgnoringCase (a b : string) : Prop :=
  canonicalizeString a = canonicalizeString b.

(** The declarations of a source file that a name resolves to. *)
Definition declarationsNamed (typeName : string) (sourceFile : SourceFile)
    : list Declaration :=
  List.filter (fun n => String.eqb (getName n) typeName)
    (getAllInterfacesAndTypeAliases sourceFile).

(** The Type-Name Set of a run: the names that the Extractor recorded and
    the names that are always included. *)
Definition typeNameSet (reactSourceFile : SourceFile) : Result (gset string) :=
  '(_, propertyInterfaceNames) ←
    extractIntrinsicElementsInterface reactSourceFile;
  Ok (addAll alwaysIncluded propertyInterfaceNames).

(** The statements of [global.JSX]. *)
Definition jsxStatements (sourceFile : SourceFile) : Result (list Statement) :=
  getNamespaceOrThrow "global" sourceFile ≫= getNamespaceOrThrow "JSX".

(** The text that a run leaves in a file, or its error. *)
Definition outcome (r : Result (gmap string string)) (path : string)
    : Result (option string) :=
  (fun files => files !! path) <$> r.

(** ** Induction on nodes, through the lists of children *)

Section TsNodeInduction.
Variable P : TsNode -> Prop.
Hypothesis P_identifier : forall text, P (Identifier text).
Hypothesis P_qualified : forall l r, P l -> P r -> P (QualifiedName l r).
Hypothesis P_syntax :
  forall text children, Forall P children -> P (Syntax text children).

Fixpoint TsNode_nested_ind (n : TsNode) : P n :=
  match n with
  | Identifier text => P_identifier text
  | QualifiedName l r =>
      P_qualified l r (TsNode_nested_ind l) (TsNode_nested_ind r)
  | Syntax text children =>
      P_syntax text children
        ((fix each (cs : list TsNode) : Forall P cs :=
            match cs with
            | [] => @List.Forall_nil _ P
            | c :: cs' => @List.Forall_cons _ P c cs' (TsNode_nested_ind c) (each cs')
            end) children)
  end.
End TsNodeInduction.

(** ** Examples *)

(** Some examples of interfaces. *)

Definition exampleProperty (id : nat) (propName type : string)
    (optional : bool) : TypeElement :=
  PropertyMember {| prop_id := id;
                    prop_name := propName;
                    prop_typeNode := Some (Syntax type []);
                    prop_hasQuestionToken := optional;
                    prop_isReadonly := false;
                    prop_docs := [] |}.

(** [interface LabelHTMLAttributes<T> extends HTMLAttributes<T> {
      form?: string; htmlFor?: string; className?: Booleanish;
      onClick?: MouseEventHandler<T>; defaultValue?: string; }] *)
Definition exampleLabel : InterfaceDeclaration :=
  {| iface_id := 1;
     iface_name := "LabelHTMLAttributes";
     iface_typeParameters := ["T"];
     iface_extends :=
       [{| ext_id := 1; ext_expression := "HTMLAttributes";
           ext_typeArguments := "<T>" |}];
     iface_members :=
       [exampleProperty 1 "form" "string" true;
        exampleProperty 2 "htmlFor" "string" true;
        exampleProperty 3 "className" "Booleanish" true;
        exampleProperty 4 "onClick" "MouseEventHandler<T>" true;
        exampleProperty 5 "defaultValue" "string" true] |}.

(** [interface Attributes<T> extends ClassAttributes<T> {
      defaultValue?: string; }] *)
Definition exampleOnlyClass : InterfaceDeclaration :=
  {| iface_id := 2;
     iface_name := "Attributes";
     iface_typeParameters := ["T"];
     iface_extends :=
       [{| ext_id := 1; ext_expression := "ClassAttributes";
           ext_typeArguments := "<T>" |}];
     iface_members := [exampleProperty 1 "defaultValue" "string" true] |}.

(** [interface AllHTMLAttributes<T> extends HTMLAttributes<T>,
      ClassAttributes<T>, AriaAttributes { }] *)
Definition exampleParents : InterfaceDeclaration :=
  {| iface_id := 3;
     iface_name := "AllHTMLAttributes";
     iface_typeParameters := ["T"];
     iface_extends :=
       [{| ext_id := 1; ext_expression := "HTMLAttributes";
           ext_typeArguments := "<T>" |};
        {| ext_id := 2; ext_expression := "ClassAttributes";
           ext_typeArguments := "<T>" |};
        {| ext_id := 3; ext_expression := "AriaAttributes";
           ext_typeArguments := "" |}];
     iface_members := [] |}.

(** [interface Props extends React.HTMLAttributes<T> { }] *)
Definition exampleUnexpected : InterfaceDeclaration :=
  {| iface_id := 4;
     iface_name := "Props";
     iface_typeParameters := [];
     iface_extends :=
       [{| ext_id := 1; ext_expression := "React.HTMLAttributes";
           ext_typeArguments := "<T>" |}];
     iface_members := [] |}.

Definition propertyNames (i : InterfaceDeclaration) : list string :=
  map prop_name (getProperties i).

Definition structures (i : InterfaceDeclaration)
    : list PropertySignatureStructure :=
  map getStructure (getProperties i).


(** [interface DOMAttributes<T> { onClick?: MouseEventHandler<T>; }] *)
Definition exampleOnClick : InterfaceDeclaration :=
  {| iface_id := 5;
     iface_name := "DOMAttributes";
     iface_typeParameters := ["T"];
     iface_extends := [];
     iface_members := [exampleProperty 1 "onClick" "MouseEventHandler<T>" true] |}.

(** The type [React.DetailedHTMLProps<React.X<E>, E>] *)
Definition detailedProps (x element : string) : TsNode :=
  Syntax ("React.DetailedHTMLProps<React." +:+ x +:+ "<" +:+ element +:+ ">, "
          +:+ element +:+ ">")
    [QualifiedName (Identifier "React") (Identifier "DetailedHTMLProps");
     Syntax ("React." +:+ x +:+ "<" +:+ element +:+ ">")
       [QualifiedName (Identifier "React") (Identifier x);
        Syntax element [Identifier element]];
     Syntax element [Identifier element]].

(** The type [React.X<E>] *)
Definition plainProps (x element : string) : TsNode :=
  Syntax ("React." +:+ x +:+ "<" +:+ element +:+ ">")
    [QualifiedName (Identifier "React") (Identifier x);
     Syntax element [Identifier element]].

Definition intrinsicProperty (id : nat) (tag : string) (typeNode : TsNode)
    : TypeElement :=
  PropertyMember {| prop_id := id;
                    prop_name := tag;
                    prop_typeNode := Some typeNode;
                    prop_hasQuestionToken := false;
                    prop_isReadonly := false;
                    prop_docs := [] |}.

(** [interface IntrinsicElements {
      a: React.DetailedHTMLProps<React.AnchorHTMLAttributes<HTMLAnchorElement>,
                                 HTMLAnchorElement>;
      svg: React.SVGProps<SVGSVGElement>;
      view: React.Attributes<SVGViewElement>; }] *)
Definition exampleIntrinsicElements : InterfaceDeclaration :=
  {| iface_id := 10;
     iface_name := "IntrinsicElements";
     iface_typeParameters := [];
     iface_extends := [];
     iface_members :=
       [intrinsicProperty 1 "a"
          (detailedProps "AnchorHTMLAttributes" "HTMLAnchorElement");
        intrinsicProperty 2 "svg" (plainProps "SVGProps" "SVGSVGElement");
        intrinsicProperty 3 "view" (plainProps "Attributes" "SVGViewElement")] |}.

(** [interface AnchorHTMLAttributes<T> extends HTMLAttributes<T> {
      href?: string; referrerPolicy?: HTMLAttributeReferrerPolicy; }] *)
Definition exampleAnchor : InterfaceDeclaration :=
  {| iface_id := 11;
     iface_name := "AnchorHTMLAttributes";
     iface_typeParameters := ["T"];
     iface_extends :=
       [{| ext_id := 1; ext_expression := "HTMLAttributes";
           ext_typeArguments := "<T>" |}];
     iface_members :=
       [exampleProperty 1 "href" "string" true;
        exampleProperty 2 "referrerPolicy" "HTMLAttributeReferrerPolicy" true] |}.

(** [interface SVGProps<T> extends SVGAttributes<T>, ClassAttributes<T> { }] *)
Definition exampleSVGProps : InterfaceDeclaration :=
  {| iface_id := 12;
     iface_name := "SVGProps";
     iface_typeParameters := ["T"];
     iface_extends :=
       [{| ext_id := 1; ext_expression := "SVGAttributes";
           ext_typeArguments := "<T>" |};
        {| ext_id := 2; ext_expression := "ClassAttributes";
           ext_typeArguments := "<T>" |}];
     iface_members := [] |}.

(** [interface HTMLAttributes<T> extends AriaAttributes, DOMAttributes<T> {
      className?: string; }] *)
Definition exampleHTMLAttributes : InterfaceDeclaration :=
  {| iface_id := 13;
     iface_name := "HTMLAttributes";
     iface_typeParameters := ["T"];
     iface_extends :=
       [{| ext_id := 1; ext_expression := "AriaAttributes";
           ext_typeArguments := "" |};
        {| ext_id := 2; ext_expression := "DOMAttributes";
           ext_typeArguments := "<T>" |}];
     iface_members := [exampleProperty 1 "className" "string" true] |}.

(** A second declaration of the same interface, which TypeScript merges
    with the first: [interface HTMLAttributes<T> { tabIndex?: number; }] *)
Definition exampleHTMLAttributesAgain : InterfaceDeclaration :=
  {| iface_id := 14;
     iface_name := "HTMLAttributes";
     iface_typeParameters := ["T"];
     iface_extends := [];
     iface_members := [exampleProperty 1 "tabIndex" "number" true] |}.

Definition exampleReferrerPolicy : TypeAliasDeclaration :=
  {| alias_name := "HTMLAttributeReferrerPolicy";
     alias_typeParameters := [];
     alias_type := "'' | 'no-referrer' | 'origin'" |}.

(** A source library with no declaration of [AriaAttributes],
    [DOMAttributes], [MediaHTMLAttributes] and [SVGAttributes], and two of
    [HTMLAttributes]. *)
Definition exampleReact : SourceFile :=
  [OtherStatement "export = React;";
   NamespaceStatement "React"
     [TypeAliasStatement exampleReferrerPolicy;
      InterfaceStatement exampleOnlyClass;
      InterfaceStatement exampleHTMLAttributes;
      InterfaceStatement exampleAnchor;
      InterfaceStatement exampleSVGProps;
      InterfaceStatement exampleHTMLAttributesAgain];
   NamespaceStatement "global"
     [NamespaceStatement "JSX"
        [InterfaceStatement exampleIntrinsicElements]]].

(** A template with the [JSX] namespace that the script asks for. *)
Definition exampleInput : SourceFile :=
  [OtherStatement "export = vhtml;";
   NamespaceStatement "global"
     [NamespaceStatement "JSX" [OtherStatement "type Element = string;"]]].

Definition exampleParse (text : string) : SourceFile :=
  if String.eqb text "template" then exampleInput
  else if String.eqb text "react" then exampleReact
  else [].

(** A printer that only tells how many statements the tree has at its top
    and in [global.JSX]. *)
Definition examplePrint (tree : SourceFile) : string :=
  match getNamespaceOrThrow "global" tree ≫= getNamespaceOrThrow "JSX" with
  | Ok body => String.concat "" (map (fun _ => "s") tree)
               +:+ String.concat "" (map (fun _ => "j") body)
  | Fatal _ => ""
  end.

Definition exampleFiles : gmap string string :=
  {[ "input/vhtml.d.ts" := "template";
     "node_modules/@types/react/index.d.ts" := "react" ]}.

Definition exampleFilesLater : gmap string string :=
  <[ "types/index.d.ts" := "an earlier output" ]> exampleFiles.

(** ** More vocabulary for the properties below *)

(** [s] has a substring that is [p] up to the case of ASCII letters. *)
Definition containsIgnoringCase (p s : string) : Prop :=
  exists pre mid post, s = pre +:+ mid +:+ post /\ sameIgnoringCase mid p.

(** [w] stands in [s] as a whole word: between two characters that are not
    word characters, or the ends of [s]. *)
Definition occursAsWord (w s : string) : Prop :=
  exists pre post,
    s = pre +:+ w +:+ post
    /\ Regex.lastIsWord false pre = false
    /\ Regex.headIsWord post = false.

(** A declaration stands in a list of statements, directly or inside
    namespaces and other nodes that hold statements, at any depth. *)
Inductive occursIn (d : Declaration) : list Statement -> Prop :=
  | occurs_interface i statements :
      d = InterfaceNode i -> InterfaceStatement i ∈ statements ->
      occursIn d statements
  | occurs_alias t statements :
      d = TypeAliasNode t -> TypeAliasStatement t ∈ statements ->
      occursIn d statements
  | occurs_namespace n body statements :
      NamespaceStatement n body ∈ statements -> occursIn d body ->
      occursIn d statements
  | occurs_block body statements :
      BlockStatement body ∈ statements -> occursIn d body ->
      occursIn d statements.

(** Induction on statements, through the bodies. *)
Section StatementInduction.
Variable P : Statement -> Prop.
Hypothesis P_interface : forall i, P (InterfaceStatement i).
Hypothesis P_alias : forall t, P (TypeAliasStatement t).
Hypothesis P_namespace :
  forall n body, Forall P body -> P (NamespaceStatement n body).
Hypothesis P_block : forall body, Forall P body -> P (BlockStatement body).
Hypothesis P_other : forall text, P (OtherStatement text).

Fixpoint Statement_nested_ind (s : Statement) : P s :=
  let each :=
    fix each (l : list Statement) : Forall P l :=
      match l with
      | [] => @List.Forall_nil _ P
      | c :: l' => @List.Forall_cons _ P c l' (Statement_nested_ind c) (each l')
      end in
  match s with
  | InterfaceStatement i => P_interface i
  | TypeAliasStatement t => P_alias t
  | NamespaceStatement n body => P_namespace n body (each body)
  | BlockStatement body => P_block body (each body)
  | OtherStatement text => P_other text
  end.
End StatementInduction.

(** The members of an interface that are not property signatures. *)
Definition otherMembers (members : list TypeElement) : list string :=
  omap (fun m => match m with
                 | OtherMember text => Some text
                 | PropertyMember _ => None
                 end) members.

(** The name that a kept property ends with. *)
Definition normalizedName (propName : string) : string :=
  if keepsItsCase propName then propName else toLowerCase propName.

(** The type that a kept property ends with. *)
Definition normalizedType (propName t : string) : string :=
  if String.eqb propName "dangerouslySetInnerHTML" then t
  else normalizeAttributeType t.

(** [interface Focusable { defaultValue?: string; focus(): void;
      className?: string; }] *)
Definition exampleWithMethod : InterfaceDeclaration :=
  {| iface_id := 6;
     iface_name := "Focusable";
     iface_typeParameters := [];
     iface_extends := [];
     iface_members :=
       [exampleProperty 1 "defaultValue" "string" true;
        OtherMember "focus(): void;";
        exampleProperty 2 "className" "string" true] |}.

(** The type aliases among declarations. *)
Definition typeAliasesOf (l : list Declaration) : list TypeAliasDeclaration :=
  omap (fun d => match d with
                 | TypeAliasNode t => Some t
                 | InterfaceNode _ => None
                 end) l.

(** No namespace called [name] among the statements themselves. *)
Definition noNamespace (name : string) (statements : list Statement) : Prop :=
  forall body, NamespaceStatement name body ∉ statements.

(** The template of the repository, [input/vhtml.d.ts]: an export
    assignment, three overloads of [vhtml] and the interface
    [VhtmlAttributes]. *)
Definition exampleRepositoryTemplate : SourceFile :=
  [OtherStatement "export = vhtml;";
   OtherStatement "declare function vhtml(name: string, attrs?: (VhtmlAttributes & { [prop: string]: string }) | null, ...children: any[]): string;";
   OtherStatement "declare function vhtml<T extends keyof JSX.IntrinsicElements>(name: T, attrs?: JSX.IntrinsicElements[T] | null, ...children: any[]): string;";
   OtherStatement "declare function vhtml<Props extends VhtmlAttributes>(component: (props: Props) => string, attrs?: Props | null, ...children: any[]): string;";
   InterfaceStatement
     {| iface_id := 20;
        iface_name := "VhtmlAttributes";
        iface_typeParameters := [];
        iface_extends := [];
        iface_members :=
          [exampleProperty 1 "children" "any[]" true;
           exampleProperty 2 "dangerouslySetInnerHTML" "{ __html: string }" true;
           OtherMember "[attr: string]: any;"] |}].

(** Two [global] blocks, which TypeScript merges; only the second has the
    [JSX] namespace. *)
Definition exampleTwoGlobals : SourceFile :=
  [NamespaceStatement "global" [OtherStatement "interface Window { }"];
   NamespaceStatement "global"
     [NamespaceStatement "JSX"
        [InterfaceStatement exampleIntrinsicElements]]].

(** A property as the Extractor leaves it. *)
Definition retargetedProperty (p : PropertySignature) : PropertySignature :=
  match targetOf p with
  | Some text => setType text p
  | None => p
  end.

(** A property of [IntrinsicElements] as it is and as the Extractor leaves
    it: the same node under the same name, with for type the text of [r],
    where [React.r] is the first descendant of the type it had, in document
    order, that is a qualified name with [React] on the left and on the
    right an identifier other than [DetailedHTMLProps]. *)
Definition retargetedFrom (p p' : PropertySignature) : Prop :=
  prop_id p' = prop_id p
  /\ prop_name p' = prop_name p
  /\ prop_hasQuestionToken p' = prop_hasQuestionToken p
  /\ exists typeNode before l r after,
       prop_typeNode p = Some typeNode
       /\ descendants typeNode = before ++ QualifiedName l r :: after
       /\ Forall (fun d => isTarget d = false) before
       /\ getText l = "React"
       /\ isIdentifier r = true
       /\ getText r <> "DetailedHTMLProps"
       /\ type (getStructure p') = Some (getText r).

(** The name of a declaration is one of [typeNames]. *)
Definition isNamedIn (typeNames : gset string) (n : Declaration) : bool :=
  bool_decide (getName n ∈ typeNames).

(** What the second pass keeps of a declaration that it extracts: of an
    interface what the Normalizer makes of it, of a type alias the alias
    itself. *)
Definition extractedFrom (n d : Declaration) : Prop :=
  match n with
  | InterfaceNode i =>
      exists i', updateAttributesInterface i = Ok i' /\ d = InterfaceNode i'
  | TypeAliasNode _ => d = n
  end.

(** The strings of ASCII characters: on these [toLowerCase] above is the
    method of the source. *)
Definition isAscii (s : string) : bool :=
  forallb (fun c => (nat_of_ascii c <? 128)%nat) (list_ascii_of_string s).

(** The texts without a line break: these go through
    [getStructure()] and [set()] character for character, where the library
    indents the lines of a longer type anew. *)
Definition isSingleLine (s : string) : bool :=
  forallb (fun c => negb (Ascii.eqb c "010"%char || Ascii.eqb c "013"%char))
    (list_ascii_of_string s).

(** The files of the repository, with its template, and a parser for
    them. *)
Definition exampleRepositoryParse (text : string) : SourceFile :=
  if String.eqb text "repository template" then exampleRepositoryTemplate
  else exampleParse text.

Definition exampleRepositoryFiles : gmap string string :=
  {[ "input/vhtml.d.ts" := "repository template";
     "node_modules/@types/react/index.d.ts" := "react" ]}.

Definition exampleTemplateOnly : gmap string string :=
  {[ "input/vhtml.d.ts" := "repository template" ]}.

(** Two property signatures that read alike: the same name, type,
    question mark and [readonly]. *)
Definition sameSignature (p p' : PropertySignature) : Prop :=
  prop_name p' = prop_name p
  /\ type (getStructure p') = type (getStructure p)
  /\ prop_hasQuestionToken p' = prop_hasQuestionToken p
  /\ prop_isReadonly p' = prop_isReadonly p.

(** * Properties of the regular expressions *)

Module RegexFacts.
Import Regex Words.

Lemma append_assoc (a b c : string) : (a +:+ b) +:+ c = a +:+ (b +:+ c).
Proof. induction a as [|x a IH]; simpl; [done | by rewrite IH]. Qed.

Lemma append_nil_r (a : string) : a +:+ "" = a.
Proof. induction a as [|x a IH]; simpl; [done | by rewrite IH]. Qed.

Lemma length_append (a b : string) :
  String.length (a +:+ b) = String.length a + String.length b.
Proof. induction a as [|x a IH]; simpl; [done | by rewrite IH]. Qed.

Lemma eqb_ascii_eq (a b : ascii) : Ascii.eqb a b = true <-> a = b.
Proof. apply Ascii.eqb_eq. Qed.

(** *** Splitting off the leading word *)

Lemma spanWord_app s : (spanWord s).1 +:+ (spanWord s).2 = s.
Proof.
  induction s as [|c s IH]; simpl; [done|].
  destruct (isWordChar c); simpl; [by rewrite IH | done].
Qed.

Lemma spanWord_allWord s : allWord (spanWord s).1 = true.
Proof.
  induction s as [|c s IH]; simpl; [done|].
  destruct (isWordChar c) eqn:E; simpl; [by rewrite E | done].
Qed.

Lemma spanWord_rest s : headIsWord (spanWord s).2 = false.
Proof.
  induction s as [|c s IH]; simpl; [done|].
  destruct (isWordChar c) eqn:E; simpl; [done | by rewrite E].
Qed.

Lemma spanWord_length s : String.length (spanWord s).2 <= String.length s.
Proof.
  induction s as [|c s IH]; simpl; [done|].
  destruct (isWordChar c); simpl; lia.
Qed.

(** Induction along the words and separators of a string. *)
Lemma string_words_ind (P : string -> Prop) :
  P "" ->
  (forall c s, isWordChar c = false -> P s -> P (String c s)) ->
  (forall u s, u <> "" -> allWord u = true -> headIsWord s = false ->
               P s -> P (u +:+ s)) ->
  forall s, P s.
Proof.
  intros Hnil Hsep Hword s.
  remember (String.length s) as n eqn:Hn.
  revert s Hn. induction n as [n IH] using lt_wf_ind. intros s Hn.
  destruct s as [|c s]; [done|].
  destruct (isWordChar c) eqn:Ec.
  - rewrite <- (spanWord_app (String c s)).
    apply Hword.
    + simpl. by rewrite Ec.
    + apply spanWord_allWord.
    + apply spanWord_rest.
    + eapply IH; [|reflexivity].
      subst n. simpl. rewrite Ec. simpl.
      pose proof (spanWord_length s). lia.
  - apply Hsep; [done|].
    eapply IH; [|reflexivity]. subst n. simpl. lia.
Qed.


(** *** Tokens *)

Lemma concat_tokenize s : concatStrings (map tokenText (tokenize s)) = s.
Proof.
  induction s as [|c s IH]; simpl; [done|].
  destruct (isWordChar c).
  - destruct (tokenize s) as [|[u|d] ts]; simpl in *; by rewrite <- IH.
  - simpl. by rewrite IH.
Qed.

Lemma tokenize_sep c s :
  isWordChar c = false -> tokenize (String c s) = TSep c :: tokenize s.
Proof. intros E. simpl. by rewrite E. Qed.

Lemma tokenize_app_sep u c s :
  isWordChar c = false ->
  tokenize (u +:+ String c s) = tokenize u ++ TSep c :: tokenize s.
Proof.
  intros E. induction u as [|x u IH]; simpl.
  - by rewrite E.
  - rewrite IH. destruct (isWordChar x); [|done].
    by destruct (tokenize u) as [|[v|d] ts].
Qed.

Lemma tokenize_word u :
  u <> "" -> allWord u = true -> tokenize u = [TWord u].
Proof.
  induction u as [|x u IH]; [done|]. intros _ H. simpl in *.
  apply andb_true_iff in H as [Hx Hu]. rewrite Hx.
  destruct u as [|y u]; [done|]. by rewrite IH.
Qed.

Lemma tokenize_app_break a b :
  headIsWord b = false -> tokenize (a +:+ b) = tokenize a ++ tokenize b.
Proof.
  destruct b as [|c b]; simpl; intros E.
  - by rewrite append_nil_r, app_nil_r.
  - rewrite tokenize_app_sep by done. simpl. by rewrite E.
Qed.

Lemma tokenize_word_app u s :
  u <> "" -> allWord u = true -> headIsWord s = false ->
  tokenize (u +:+ s) = TWord u :: tokenize s.
Proof.
  intros. rewrite tokenize_app_break by done. by rewrite tokenize_word.
Qed.

(** *** The scan of [replaceWord] *)

Lemma stripPrefix_app w s : stripPrefix w (w +:+ s) = Some s.
Proof.
  induction w as [|a v IH]; simpl; [done|]. by rewrite Ascii.eqb_refl.
Qed.

Lemma lastIsWord_allWord u prev :
  u <> "" -> allWord u = true -> lastIsWord prev u = true.
Proof.
  revert prev. induction u as [|x u IH]; [done|].
  intros prev _ H. simpl in *. apply andb_true_iff in H as [Hx Hu].
  destruct u as [|y u]; [done|]. by apply IH.
Qed.

Lemma headIsWord_allWord u s :
  u <> "" -> allWord u = true -> headIsWord (u +:+ s) = true.
Proof.
  destruct u as [|x u]; [done|]. simpl. intros _ H.
  by apply andb_true_iff in H as [Hx Hu].
Qed.

(** A whole word has [v] in front of a boundary only if it is [v]. *)
Lemma stripPrefix_word v u s rest :
  allWord v = true -> allWord u = true -> headIsWord s = false ->
  stripPrefix v (u +:+ s) = Some rest -> headIsWord rest = false ->
  v = u.
Proof.
  revert u. induction v as [|a v IH]; intros u Hv Hu Hs Hp Hr.
  - simpl in Hp. injection Hp as <-.
    destruct u as [|x u]; [done|]. simpl in *.
    apply andb_true_iff in Hu as [Hx _]. congruence.
  - simpl in Hv. apply andb_true_iff in Hv as [Ha Hv].
    destruct u as [|x u]; simpl in *.
    + destruct s as [|c s]; [done|]. simpl in *.
      destruct (Ascii.eqb a c) eqn:E; [|done].
      apply Ascii.eqb_eq in E. congruence.
    + apply andb_true_iff in Hu as [Hx Hu].
      destruct (Ascii.eqb a x) eqn:E; [|done].
      apply Ascii.eqb_eq in E. subst x. f_equal. by eapply IH.
Qed.

Lemma replaceScan_skip w rep v prev s :
  replaceScan w rep (String.length v) prev (v +:+ s)
  = replaceScan w rep 0 (lastIsWord prev v) s.
Proof.
  revert prev. induction v as [|x v IH]; intros prev; simpl.
  - by destruct s.
  - apply IH.
Qed.

Lemma replaceScan_in_word w rep u s :
  allWord u = true ->
  replaceScan w rep 0 true (u +:+ s) = u +:+ replaceScan w rep 0 true s.
Proof.
  induction u as [|x u IH]; [done|]. intros H. simpl in H.
  apply andb_true_iff in H as [Hx Hu]. simpl.
  unfold matchWordHere. simpl. rewrite Hx. simpl. by rewrite IH.
Qed.

Lemma replaceScan_prev w rep s :
  w <> "" -> allWord w = true -> headIsWord s = false ->
  replaceScan w rep 0 true s = replaceScan w rep 0 false s.
Proof.
  intros Hne Hw. destruct s as [|c s]; [done|]. simpl. intros Hc.
  unfold matchWordHere. simpl. rewrite Hc. simpl.
  destruct w as [|a v]; [done|]. simpl in Hw |- *.
  apply andb_true_iff in Hw as [Ha _].
  destruct (Ascii.eqb a c) eqn:E; [|done].
  apply Ascii.eqb_eq in E. congruence.
Qed.

Lemma replaceScan_sep w rep c s :
  isWordChar c = false ->
  replaceScan w rep 0 false (String c s)
  = String c (replaceScan w rep 0 false s).
Proof.
  intros Hc. simpl. unfold matchWordHere. simpl. by rewrite Hc.
Qed.

Lemma replaceScan_the_word w rep s :
  w <> "" -> allWord w = true -> headIsWord s = false ->
  replaceScan w rep 0 false (w +:+ s) = rep +:+ replaceScan w rep 0 false s.
Proof.
  intros Hne Hw Hs. rewrite <- (replaceScan_prev w rep s) by done.
  assert (Hm : matchWordHere w false (w +:+ s) = true).
  { unfold matchWordHere. rewrite stripPrefix_app.
    by rewrite headIsWord_allWord, lastIsWord_allWord, Hs. }
  destruct w as [|a v]; [done|].
  simpl. simpl in Hm. rewrite Hm. f_equal.
  replace (String.length v - 0) with (String.length v) by lia.
  rewrite replaceScan_skip. f_equal.
  simpl in Hw. apply andb_true_iff in Hw as [Ha Hv].
  destruct v as [|b v]; [done|]. by apply lastIsWord_allWord.
Qed.

Lemma replaceScan_other_word w rep u s :
  w <> "" -> allWord w = true ->
  u <> "" -> allWord u = true -> headIsWord s = false -> u <> w ->
  replaceScan w rep 0 false (u +:+ s) = u +:+ replaceScan w rep 0 true s.
Proof.
  intros Hwne Hw Hne Hu Hs Hneq.
  destruct u as [|x u]; [done|]. simpl.
  assert (Hm : matchWordHere w false (String x (u +:+ s)) = false).
  { unfold matchWordHere.
    destruct (stripPrefix w (String x (u +:+ s))) as [rest|] eqn:Ep;
      [|by rewrite andb_false_r].
    destruct (wordBoundary (lastIsWord false w) (headIsWord rest)) eqn:Er;
      [|by rewrite andb_false_r].
    exfalso. apply Hneq. symmetry.
    apply (stripPrefix_word w (String x u) s rest); try done.
    rewrite lastIsWord_allWord in Er by done.
    by destruct (headIsWord rest). }
  rewrite Hm. f_equal. simpl in Hu. apply andb_true_iff in Hu as [Hx Hu].
  rewrite Hx. by apply replaceScan_in_word.
Qed.

Section Scan.
Variables w rep : string.
Hypothesis w_nonempty : w <> "".
Hypothesis w_word : allWord w = true.

Lemma replaceWord_head s :
  headIsWord s = false -> headIsWord (replaceWord w rep s) = false.
Proof.
  destruct s as [|c s]; [done|]. simpl. intros Hc.
  unfold replaceWord. rewrite replaceScan_sep by done. done.
Qed.

(** The scan replaces exactly the words equal to [w]. *)
Lemma replaceWord_tokens s :
  replaceWord w rep s
  = concatStrings (map (renderToken w rep) (tokenize s)).
Proof.
  unfold replaceWord.
  induction s as [|c s Hc IH|u s Hne Hu Hs IH] using string_words_ind.
  - done.
  - rewrite replaceScan_sep, tokenize_sep by done. simpl. by rewrite IH.
  - rewrite tokenize_word_app by done. simpl.
    destruct (String.eqb u w) eqn:E.
    + apply String.eqb_eq in E. subst u.
      rewrite replaceScan_the_word by done. by rewrite IH.
    + apply String.eqb_neq in E.
      rewrite replaceScan_other_word, replaceScan_prev by done.
      by rewrite IH.
Qed.

Lemma tokenize_replaceWord s :
  tokenize (replaceWord w rep s)
  = flat_map (substToken w rep) (tokenize s).
Proof.
  induction s as [|c s Hc IH|u s Hne Hu Hs IH] using string_words_ind.
  - done.
  - unfold replaceWord in *.
    rewrite replaceScan_sep, !tokenize_sep by done. simpl. by rewrite IH.
  - pose proof (replaceWord_head s Hs) as Hh. unfold replaceWord in *.
    rewrite (tokenize_word_app u s) by done. simpl.
    destruct (String.eqb u w) eqn:E.
    + apply String.eqb_eq in E. subst u.
      rewrite replaceScan_the_word by done.
      rewrite tokenize_app_break by done. by rewrite IH.
    + apply String.eqb_neq in E.
      rewrite replaceScan_other_word, replaceScan_prev by done.
      rewrite tokenize_word_app by done. by rewrite IH.
Qed.

Lemma replaceWord_absent s :
  TWord w ∉ tokenize s -> replaceWord w rep s = s.
Proof.
  intros Hnot. rewrite replaceWord_tokens.
  rewrite <- (concat_tokenize s) at 2. f_equal.
  apply map_ext_in. intros t Ht. apply list_elem_of_In in Ht.
  destruct t as [u|c]; [|done]. simpl.
  destruct (String.eqb u w) eqn:E; [|done].
  apply String.eqb_eq in E. by subst u.
Qed.

Lemma elem_of_substToken t ts :
  t ∈ flat_map (substToken w rep) ts ->
  (t ∈ ts /\ t <> TWord w) \/ t ∈ tokenize rep.
Proof.
  clear. intros Ht.
  apply list_elem_of_In, in_flat_map in Ht as (t0 & Hin & Ht).
  apply list_elem_of_In in Hin.
  destruct t0 as [u|c]; simpl in Ht.
  - destruct (String.eqb u w) eqn:E.
    + right. by apply list_elem_of_In.
    + left. destruct Ht as [<-|[]]. split; [done|].
      apply String.eqb_neq in E. congruence.
  - left. destruct Ht as [<-|[]]. done.
Qed.

Lemma substToken_hit ts t :
  TWord w ∈ ts -> t ∈ tokenize rep -> t ∈ flat_map (substToken w rep) ts.
Proof.
  clear. intros Hw Ht. apply list_elem_of_In, in_flat_map.
  exists (TWord w). split; [by apply list_elem_of_In|].
  simpl. rewrite String.eqb_refl. by apply list_elem_of_In.
Qed.

Lemma substToken_keep ts t :
  t ∈ ts -> t <> TWord w -> t ∈ flat_map (substToken w rep) ts.
Proof.
  clear. intros Hin Hne. apply list_elem_of_In, in_flat_map.
  exists t. split; [by apply list_elem_of_In|].
  destruct t as [u|c]; simpl; [|by left].
  destruct (String.eqb u w) eqn:E; [|by left].
  apply String.eqb_eq in E. by subst u.
Qed.
End Scan.


(** *** The case-insensitive test *)

Lemma isWordChar_canonicalize c : isWordChar (canonicalize c) = isWordChar c.
Proof. destruct c as [[] [] [] [] [] [] [] []]; reflexivity. Qed.

Lemma canonicalize_word a c :
  isWordChar a = true -> isWordChar c = false ->
  Ascii.eqb (canonicalize a) (canonicalize c) = false.
Proof.
  intros Ha Hc. destruct (Ascii.eqb _ _) eqn:E; [|done].
  apply Ascii.eqb_eq in E.
  rewrite <- isWordChar_canonicalize, E, isWordChar_canonicalize in Ha.
  congruence.
Qed.

Lemma matchHereCI_break p u s :
  allWord p = true -> headIsWord s = false ->
  matchHereCI p (u +:+ s) = matchHereCI p u.
Proof.
  intros Hp Hs. revert p Hp.
  induction u as [|x u IH]; intros [|a p] Hp; simpl; try done.
  - destruct s as [|c s]; [done|]. simpl in *.
    apply andb_true_iff in Hp as [Ha _]. by rewrite canonicalize_word.
  - simpl in Hp. apply andb_true_iff in Hp as [_ Hp]. by rewrite IH.
Qed.

Lemma testCI_nil p : p <> "" -> testCI p "" = false.
Proof. by destruct p. Qed.

Lemma testCI_break p u s :
  p <> "" -> allWord p = true -> headIsWord s = false ->
  testCI p (u +:+ s) = testCI p u || testCI p s.
Proof.
  intros Hne Hp Hs. induction u as [|x u IH].
  - by rewrite testCI_nil.
  - change (testCI p (String x u +:+ s))
      with (matchHereCI p (String x u +:+ s) || testCI p (u +:+ s)).
    rewrite matchHereCI_break, IH by done.
    by rewrite orb_assoc.
Qed.

Lemma testCI_sep p c s :
  p <> "" -> allWord p = true -> isWordChar c = false ->
  testCI p (String c s) = testCI p s.
Proof.
  intros Hne Hp Hc. destruct p as [|a p]; [done|]. simpl in *.
  apply andb_true_iff in Hp as [Ha _]. by rewrite canonicalize_word.
Qed.

(** A literal made of letters is found in a string exactly when it is found
    inside one of its words. *)
Lemma testCI_tokens p s :
  p <> "" -> allWord p = true ->
  testCI p s = existsb (tokenTestCI p) (tokenize s).
Proof.
  intros Hne Hp.
  induction s as [|c s Hc IH|u s Hu0 Hu Hs IH] using string_words_ind.
  - by rewrite testCI_nil.
  - rewrite testCI_sep, tokenize_sep by done. by rewrite IH.
  - rewrite testCI_break, tokenize_word_app by done. simpl. by rewrite IH.
Qed.

Lemma testCI_substToken p w rep ts :
  existsb (tokenTestCI p) ts = false ->
  existsb (tokenTestCI p) (tokenize rep) = false ->
  existsb (tokenTestCI p) (flat_map (substToken w rep) ts) = false.
Proof.
  intros Hts Hrep. induction ts as [|t ts IH]; [done|].
  simpl in Hts. apply orb_false_iff in Hts as [Ht Hts].
  simpl. rewrite existsb_app, IH by done. rewrite orb_false_r.
  destruct t as [u|c]; simpl; [|done].
  destruct (String.eqb u w); [done|]. simpl in Ht |- *. by rewrite Ht.
Qed.

End RegexFacts.

(** * Properties of [normalizeAttributeType] *)

Section NormalizeAttributeType.
Import Regex Words RegexFacts.

(** A membership between closed token lists that does not hold. *)
Ltac decide_tokens H :=
exfalso; revert H; apply (bool_decide_unpack (¬ _)); vm_compute.

Lemma tokenize_replacedTypeNames s :
tokenize (replacedTypeNames s)
= flat_map (substToken "Booleanish" "(boolean | 'true' | 'false')")
    (flat_map (substToken "CSSProperties" "string") (tokenize s)).
Proof.
unfold replacedTypeNames. by rewrite !tokenize_replaceWord.
Qed.

Lemma replacedTypeNames_no_handler s :
testCI "EventHandler" s = false ->
testCI "EventHandler" (replacedTypeNames s) = false.
Proof.
rewrite !(testCI_tokens "EventHandler") by done.
rewrite tokenize_replacedTypeNames. intros H.
by repeat apply testCI_substToken.
Qed.

Lemma replacedTypeNames_no_css s :
TWord "CSSProperties" ∉ tokenize (replacedTypeNames s).
Proof.
rewrite tokenize_replacedTypeNames. intros Ht.
apply elem_of_substToken in Ht as [[Ht _]|Ht].
- apply elem_of_substToken in Ht as [[_ Ht]|Ht]; [done|].
  by decide_tokens Ht.
- by decide_tokens Ht.
Qed.

Lemma replacedTypeNames_no_booleanish s :
TWord "Booleanish" ∉ tokenize (replacedTypeNames s).
Proof.
rewrite tokenize_replacedTypeNames. intros Ht.
apply elem_of_substToken in Ht as [[_ Ht]|Ht]; [done|].
by decide_tokens Ht.
Qed.

Lemma replacedTypeNames_unchanged s :
TWord "CSSProperties" ∉ tokenize s -> TWord "Booleanish" ∉ tokenize s ->
replacedTypeNames s = s.
Proof.
intros Hc Hb. unfold replacedTypeNames.
rewrite (replaceWord_absent "CSSProperties") by done.
by rewrite replaceWord_absent.
Qed.

Lemma replacedTypeNames_not_node s :
s <> "ReactNode" -> replacedTypeNames s <> "ReactNode".
Proof.
intros Hs Hr.
assert (Htok : tokenize (replacedTypeNames s) = [TWord "ReactNode"])
  by (by rewrite Hr).
rewrite tokenize_replacedTypeNames in Htok.
apply Hs. rewrite <- Hr. symmetry. apply replacedTypeNames_unchanged.
- intros Hin.
  assert (H : TWord "string" ∈ [TWord "ReactNode"]).
  { rewrite <- Htok. apply substToken_keep; [|done].
    apply substToken_hit; [done|]. apply list_elem_of_In. by left. }
  by decide_tokens H.
- intros Hin.
  assert (H : TSep "("%char ∈ [TWord "ReactNode"]).
  { rewrite <- Htok. apply substToken_hit.
    - by apply substToken_keep.
    - apply list_elem_of_In. by left. }
  by decide_tokens H.
Qed.

Lemma replacedTypeNames_fixed s :
replacedTypeNames (replacedTypeNames s) = replacedTypeNames s.
Proof.
apply replacedTypeNames_unchanged.
- apply replacedTypeNames_no_css.
- apply replacedTypeNames_no_booleanish.
Qed.

(** C9: the attribute-type normalization is idempotent: normalizing an
  already normalized type string gives the same string again. *)
Theorem normalizeAttributeType_idempotent (s : string) :
normalizeAttributeType (normalizeAttributeType s)
= normalizeAttributeType s.
Proof.
unfold normalizeAttributeType at 2 3.
destruct (testCI "EventHandler" s) eqn:Eh; [reflexivity|].
destruct (String.eqb s "ReactNode") eqn:En; [reflexivity|].
apply String.eqb_neq in En.
fold (replacedTypeNames s). unfold normalizeAttributeType.
rewrite replacedTypeNames_no_handler by done.
pose proof (replacedTypeNames_not_node s En) as Hn.
apply String.eqb_neq in Hn. rewrite Hn.
apply replacedTypeNames_fixed.
Qed.
End NormalizeAttributeType.

(** * Nodes and their identities *)

Section NodesFacts.
Context {A : Type} (key : A -> option nat).

Lemma nodeIds_app (l1 l2 : list A) :
  nodeIds key (l1 ++ l2) = nodeIds key l1 ++ nodeIds key l2.
Proof. apply omap_app. Qed.

Lemma isNode_true h a : isNode key h a = true <-> key a = Some h.
Proof. unfold isNode. apply bool_decide_eq_true. Qed.

Lemma isNode_absent h (l : list A) :
  h ∉ nodeIds key l -> Forall (fun a => isNode key h a = false) l.
Proof.
  induction l as [|a l IH]; intros Hh; constructor.
  - destruct (isNode key h a) eqn:E; [|done].
    apply isNode_true in E. exfalso. apply Hh.
    unfold nodeIds. simpl. rewrite E. by left.
  - apply IH. intros Hin. apply Hh. unfold nodeIds in *. simpl.
    destruct (key a); [by right|done].
Qed.

Lemma lookupNode_focus h pre a post :
  h ∉ nodeIds key pre -> key a = Some h ->
  lookupNode key h (pre ++ a :: post) = Ok a.
Proof.
  intros Hpre Ha. unfold lookupNode.
  apply isNode_absent in Hpre.
  induction Hpre as [|b pre Hb _ IH]; simpl.
  - apply isNode_true in Ha. by rewrite Ha.
  - by rewrite Hb.
Qed.

Lemma removeNode_absent h (l : list A) :
  h ∉ nodeIds key l -> removeNode key h l = l.
Proof.
  intros Hl. apply isNode_absent in Hl. unfold removeNode.
  induction Hl as [|b l Hb _ IH]; simpl; [done|].
  by rewrite Hb, IH.
Qed.

Lemma updateNode_absent h f (l : list A) :
  h ∉ nodeIds key l -> updateNode key h f l = l.
Proof.
  intros Hl. apply isNode_absent in Hl. unfold updateNode.
  induction Hl as [|b l Hb _ IH]; simpl; [done|].
  by rewrite Hb, IH.
Qed.

Lemma removeNode_focus h pre a post :
  h ∉ nodeIds key pre -> h ∉ nodeIds key post -> key a = Some h ->
  removeNode key h (pre ++ a :: post) = pre ++ post.
Proof.
  intros Hpre Hpost Ha. unfold removeNode.
  rewrite List.filter_app. simpl.
  apply isNode_true in Ha. rewrite Ha. simpl.
  fold (removeNode key h pre) (removeNode key h post).
  by rewrite !removeNode_absent.
Qed.

Lemma updateNode_focus h f pre a post :
  h ∉ nodeIds key pre -> h ∉ nodeIds key post -> key a = Some h ->
  updateNode key h f (pre ++ a :: post) = pre ++ f a :: post.
Proof.
  intros Hpre Hpost Ha. unfold updateNode.
  rewrite List.map_app. simpl.
  apply isNode_true in Ha. rewrite Ha.
  fold (updateNode key h f pre) (updateNode key h f post).
  by rewrite !updateNode_absent.
Qed.

Lemma lookupNode_head h a (l : list A) :
  key a = Some h -> lookupNode key h (a :: l) = Ok a.
Proof.
  intros Ha. apply (lookupNode_focus h [] a l); [apply not_elem_of_nil|done].
Qed.

Lemma removeNode_head h a (l : list A) :
  h ∉ nodeIds key l -> key a = Some h -> removeNode key h (a :: l) = l.
Proof.
  intros Hl Ha.
  apply (removeNode_focus h [] a l); [apply not_elem_of_nil|done..].
Qed.

Lemma list_max_ge (l : list nat) x : x ∈ l -> x <= list_max l.
Proof.
  induction l as [|y l IH]; intros Hin; [by apply elem_of_nil in Hin|].
  apply elem_of_cons in Hin as [->|Hin]; simpl; [lia|].
  specialize (IH Hin). lia.
Qed.

Lemma freshId_not_live holds (l : list A) :
  freshId key holds l ∉ nodeIds key l.
Proof.
  intros Hin. unfold freshId in Hin.
  assert (H : S (list_max (holds ++ nodeIds key l))
              <= list_max (holds ++ nodeIds key l)).
  { apply list_max_ge. apply elem_of_app. by right. }
  lia.
Qed.

Lemma freshId_not_held holds (l : list A) :
  freshId key holds l ∉ holds.
Proof.
  intros Hin. unfold freshId in Hin.
  assert (H : S (list_max (holds ++ nodeIds key l))
              <= list_max (holds ++ nodeIds key l)).
  { apply list_max_ge. apply elem_of_app. by left. }
  lia.
Qed.
End NodesFacts.

Lemma bind_Ok {A B} (m : Result A) (f : A -> Result B) (b : B) :
  m ≫= f = Ok b <-> exists a, m = Ok a /\ f a = Ok b.
Proof.
  destruct m as [a|e]; simpl; split.
  - intros H. by exists a.
  - by intros (a' & [= <-] & H).
  - done.
  - by intros (a' & [=] & _).
Qed.

(** * The loop over the parents of an interface *)

Section UpdateExtends.
Variable interfaceName : string.
Variable snapshot : list nat.

Lemma nodeIds_extends (exts : list ExpressionWithTypeArguments) :
  nodeIds extendsKey exts = map ext_id exts.
Proof. induction exts as [|e l IH]; simpl; [done|]. by f_equal. Qed.

Lemma isUnexpectedParent_allowed x :
  String.eqb x "ClassAttributes" = false ->
  isUnexpectedParent x = negb (isAllowedParent x).
Proof. intros E. unfold isUnexpectedParent. by rewrite E. Qed.

(** One turn of the loop, on the parent that is in front of the list. *)
Lemma updateExtendsClause_head e l :
  ext_id e ∉ nodeIds extendsKey l ->
  updateExtendsClause interfaceName snapshot (ext_id e) (e :: l)
  = if String.eqb (ext_expression e) "ClassAttributes" then Ok l
    else if isAllowedParent (ext_expression e)
    then Ok (addExtends snapshot (ext_expression e) l)
    else Fatal (AssertionError
                  (unexpectedParent interfaceName (ext_expression e))).
Proof.
  intros Hfresh. unfold updateExtendsClause.
  rewrite lookupNode_head, removeNode_head by done.
  simpl. destruct (String.eqb _ "ClassAttributes"); [done|].
  by destruct (isAllowedParent _).
Qed.

Lemma NoDup_addExtends x (l : list ExpressionWithTypeArguments) :
  NoDup (nodeIds extendsKey l) ->
  NoDup (nodeIds extendsKey (addExtends snapshot x l)).
Proof.
  intros Hnd. unfold addExtends. rewrite nodeIds_app. simpl.
  apply NoDup_app. split_and!; [done| |apply NoDup_singleton].
  intros y Hy Hy'. apply list_elem_of_singleton in Hy'. subst y.
  by apply freshId_not_live in Hy.
Qed.

(** The loop with [rest] still to visit, every parent of which is still
    in front of the list, and [done] behind it. *)
Lemma updateExtends_loop rest : forall done,
  NoDup (nodeIds extendsKey (rest ++ done)) ->
  match List.find isUnexpectedParent (map ext_expression rest) with
  | Some x =>
      forEachM (updateExtendsClause interfaceName snapshot)
        (nodeIds extendsKey rest) (rest ++ done)
      = Fatal (AssertionError (unexpectedParent interfaceName x))
  | None =>
      exists added,
        forEachM (updateExtendsClause interfaceName snapshot)
          (nodeIds extendsKey rest) (rest ++ done)
        = Ok (done ++ added)
        /\ map ext_expression added = keptParents rest
        /\ Forall (fun e => ext_typeArguments e = "") added
  end.
Proof.
  induction rest as [|e rest IH]; intros done Hnd.
  - simpl. exists []. by rewrite app_nil_r.
  - change (nodeIds extendsKey (e :: rest))
      with (ext_id e :: nodeIds extendsKey rest).
    change (nodeIds extendsKey ((e :: rest) ++ done))
      with (ext_id e :: nodeIds extendsKey (rest ++ done)) in Hnd.
    apply NoDup_cons in Hnd as [Hfresh Hnd].
    cbn [forEachM map List.find app].
    rewrite updateExtendsClause_head by done.
    destruct (String.eqb (ext_expression e) "ClassAttributes") eqn:Ec.
    + unfold isUnexpectedParent at 1. rewrite Ec.
      cbn [negb andb mbind Result_bind].
      specialize (IH done Hnd).
      destruct (List.find isUnexpectedParent (map ext_expression rest));
        [done|].
      destruct IH as (added & Hrun & Hexpr & Hargs).
      exists added. split_and!; [done| |done].
      unfold keptParents. simpl. rewrite Ec. by simpl.
    + rewrite isUnexpectedParent_allowed by done.
      destruct (isAllowedParent (ext_expression e)) eqn:Ea;
        cbn [negb mbind Result_bind]; [|done].
      pose proof (NoDup_addExtends (ext_expression e) _ Hnd) as Hnd'.
      unfold addExtends in *. rewrite <- app_assoc in *.
      specialize (IH _ Hnd').
      destruct (List.find isUnexpectedParent (map ext_expression rest));
        [done|].
      destruct IH as (added & Hrun & Hexpr & Hargs).
      rewrite <- app_assoc in Hrun.
      eexists (_ :: added). split_and!; [exact Hrun| |by constructor].
      unfold keptParents. simpl. rewrite Ec. simpl. by f_equal.
Qed.
End UpdateExtends.

Lemma updateExtends_spec interfaceName exts :
  NoDup (map ext_id exts) ->
  match List.find isUnexpectedParent (map ext_expression exts) with
  | Some x =>
      updateExtends interfaceName exts
      = Fatal (AssertionError (unexpectedParent interfaceName x))
  | None =>
      exists exts',
        updateExtends interfaceName exts = Ok exts'
        /\ map ext_expression exts' = keptParents exts
        /\ Forall (fun e => ext_typeArguments e = "") exts'
  end.
Proof.
  intros Hnd. unfold updateExtends.
  pose proof (updateExtends_loop interfaceName (nodeIds extendsKey exts)
                exts []) as H.
  rewrite app_nil_r in H. rewrite nodeIds_extends in H at 1.
  specialize (H Hnd).
  destruct (List.find isUnexpectedParent (map ext_expression exts)); [done|].
  destruct H as (added & Hrun & Hexpr & Hargs). by exists added.
Qed.

(** * The loop over the properties of an interface *)

Lemma getStructure_newProperty id structure :
  getStructure (newProperty id structure) = structure.
Proof. destruct structure as [n [t|] q r d]; reflexivity. Qed.

Lemma getStructure_setStructure structure p :
  getStructure (setStructure structure p) = structure.
Proof. destruct structure as [n [t|] q r d]; reflexivity. Qed.

Lemma normalizeStructure_typed propName structure t :
  name structure = propName -> type structure = Some t ->
  normalizeStructure propName structure
  = Ok (let structure :=
          if negb (String.eqb propName "dangerouslySetInnerHTML")
          then retyped (normalizeAttributeType t) structure
          else structure in
        if negb (keepsItsCase propName)
        then renamed (toLowerCase propName) structure
        else structure).
Proof.
  intros Hn Ht. unfold normalizeStructure. rewrite Ht.
  destruct (negb (String.eqb propName "dangerouslySetInnerHTML")); simpl;
    by rewrite Hn, String.eqb_refl.
Qed.

Lemma normalizeStructure_untyped propName structure :
  type structure = None ->
  normalizeStructure propName structure
  = Fatal (AssertionError "Unexpected structure.type type: undefined").
Proof. intros Ht. unfold normalizeStructure. by rewrite Ht. Qed.

Lemma isDroppedProperty_aliasOf propName :
  isDroppedProperty propName = true -> aliasOf propName = None.
Proof.
  unfold isDroppedProperty. intros H.
  repeat (apply orb_true_iff in H as [H|H]);
    apply String.eqb_eq in H; by subst propName.
Qed.

Section UpdateProperties.
Variable snapshot : list nat.

Lemma nodeIds_property p (l : list TypeElement) :
  nodeIds memberKey (PropertyMember p :: l)
  = prop_id p :: nodeIds memberKey l.
Proof. reflexivity. Qed.

Lemma nodeIds_other text (l : list TypeElement) :
  nodeIds memberKey (OtherMember text :: l) = nodeIds memberKey l.
Proof. reflexivity. Qed.

Lemma getPropertiesOf_property p (l : list TypeElement) :
  getPropertiesOf (PropertyMember p :: l) = p :: getPropertiesOf l.
Proof. reflexivity. Qed.

Lemma getPropertiesOf_other text (l : list TypeElement) :
  getPropertiesOf (OtherMember text :: l) = getPropertiesOf l.
Proof. reflexivity. Qed.

Lemma lookupProperty_focus p pre post :
  prop_id p ∉ nodeIds memberKey pre ->
  lookupProperty (prop_id p) (pre ++ PropertyMember p :: post) = Ok p.
Proof.
  intros Hpre. unfold lookupProperty.
  by rewrite lookupNode_focus.
Qed.

Lemma updateProperty_focus f p pre post :
  prop_id p ∉ nodeIds memberKey pre ->
  prop_id p ∉ nodeIds memberKey post ->
  updateProperty (prop_id p) f (pre ++ PropertyMember p :: post)
  = pre ++ PropertyMember (f p) :: post.
Proof.
  intros Hpre Hpost. unfold updateProperty.
  by rewrite updateNode_focus.
Qed.

(** One turn of the loop, on a property that is still in the list. *)
Lemma updatePropertySignature_focus p pre post :
  prop_id p ∉ nodeIds memberKey pre ->
  prop_id p ∉ nodeIds memberKey post ->
  updatePropertySignature snapshot (prop_id p)
    (pre ++ PropertyMember p :: post)
  = if isDroppedProperty (prop_name p) then Ok (pre ++ post)
    else
      structure ← normalizeStructure (prop_name p) (getStructure p);
      let members := pre ++ PropertyMember (setStructure structure p) :: post in
      match aliasOf (prop_name p) with
      | Some alias => Ok (addProperty snapshot (renamed alias structure) members)
      | None => Ok members
      end.
Proof.
  intros Hpre Hpost. unfold updatePropertySignature.
  rewrite lookupProperty_focus by done. cbn [mbind Result_bind].
  rewrite removeNode_focus by done.
  destruct (isDroppedProperty (prop_name p)); [done|].
  destruct (normalizeStructure (prop_name p) (getStructure p)) as [s|e];
    cbn [mbind Result_bind]; [|done].
  rewrite updateProperty_focus by done.
  unfold aliasOf.
  destruct (String.eqb (prop_name p) "className"); [done|].
  by destruct (String.eqb (prop_name p) "htmlFor").
Qed.

Lemma NoDup_addProperty structure (l : list TypeElement) :
  NoDup (nodeIds memberKey l) ->
  NoDup (nodeIds memberKey (addProperty snapshot structure l)).
Proof.
  intros Hnd. unfold addProperty. rewrite nodeIds_app. simpl.
  apply NoDup_app. split_and!; [done| |apply NoDup_singleton].
  intros y Hy Hy'. apply list_elem_of_singleton in Hy'. subst y.
  by apply freshId_not_live in Hy.
Qed.

(** The loop with [rest] still to visit, between the members [pre] that
    are done with and the members [post] that were added. *)
Lemma updateProperties_loop rest : forall pre post,
  NoDup (nodeIds memberKey (pre ++ rest ++ post)) ->
  match List.find isUntyped (getPropertiesOf rest) with
  | Some _ =>
      forEachM (updatePropertySignature snapshot) (nodeIds memberKey rest)
        (pre ++ rest ++ post)
      = Fatal (AssertionError "Unexpected structure.type type: undefined")
  | None =>
      exists dups,
        forEachM (updatePropertySignature snapshot) (nodeIds memberKey rest)
          (pre ++ rest ++ post)
        = Ok (pre ++ flat_map processedMember rest ++ post
              ++ map PropertyMember dups)
        /\ map getStructure dups = flat_map duplicateOf rest
        /\ Forall (fun d => prop_id d ∉ snapshot) dups
  end.
Proof.
  induction rest as [|[p|text] rest IH]; intros pre post Hnd.
  - simpl. exists []. simpl. by rewrite app_nil_r.
  - (* a property *)
    rewrite nodeIds_property, getPropertiesOf_property.
    cbn [forEachM List.find].
    assert (Hids : (prop_id p ∉ nodeIds memberKey pre)
                   /\ (prop_id p ∉ nodeIds memberKey (rest ++ post))
                   /\ NoDup (nodeIds memberKey (pre ++ rest ++ post))).
    { rewrite (nodeIds_app _ pre) in Hnd |- *. cbn [app] in Hnd.
      rewrite nodeIds_property in Hnd.
      apply NoDup_app in Hnd as (Hpre & Hdisj & Hrest).
      apply NoDup_cons in Hrest as [Hp Hrest].
      split_and!; [|done|].
      - intros Hin. apply (Hdisj _ Hin). by left.
      - apply NoDup_app. split_and!; [done| |done].
        intros x Hx Hx'. apply (Hdisj _ Hx). by right. }
    destruct Hids as (Hpre & Hpost & Hnd').
    cbn [app]. rewrite updatePropertySignature_focus by done.
    unfold isUntyped at 1.
    destruct (isDroppedProperty (prop_name p)) eqn:Ed.
    + cbn [negb andb mbind Result_bind].
      specialize (IH pre post Hnd').
      destruct (List.find isUntyped (getPropertiesOf rest)); [done|].
      destruct IH as (dups & Hrun & Hs & Hfresh).
      exists dups. split_and!; [| |done].
      * rewrite Hrun. simpl. by rewrite Ed.
      * simpl. by rewrite isDroppedProperty_aliasOf.
    + cbn [negb andb].
      destruct (prop_typeNode p) as [typeNode|] eqn:Et.
      2:{ rewrite bool_decide_eq_false_2 by (by intros [? ?]).
          rewrite normalizeStructure_untyped; [done|].
          simpl. by rewrite Et. }
      rewrite bool_decide_eq_true_2 by done. cbn [negb].
      assert (Hn : normalizeStructure (prop_name p) (getStructure p)
                   = Ok (normalizedStructure p)).
      { unfold normalizedStructure.
        erewrite normalizeStructure_typed; [done..|].
        simpl. by rewrite Et. }
      rewrite Hn. cbn [mbind Result_bind].
      set (p' := setStructure (normalizedStructure p) p).
      assert (Hnd'' : NoDup (nodeIds memberKey
                               (pre ++ PropertyMember p' :: rest ++ post))).
      { cbn [app] in Hnd.
        rewrite (nodeIds_app _ pre) in Hnd |- *. exact Hnd. }
      destruct (aliasOf (prop_name p)) as [alias|] eqn:Ea.
      * apply (NoDup_addProperty (renamed alias (normalizedStructure p)))
          in Hnd''.
        unfold addProperty in *.
        set (dup := newProperty _ _) in *.
        assert (Hdup : prop_id dup ∉ snapshot).
        { apply freshId_not_held. }
        assert (Heq : (pre ++ PropertyMember p' :: rest ++ post)
                      ++ [PropertyMember dup]
                      = (pre ++ [PropertyMember p']) ++ rest
                        ++ (post ++ [PropertyMember dup]))
          by (repeat (rewrite <- app_assoc; cbn [app]); done).
        rewrite Heq in Hnd'' |- *.
        specialize (IH _ _ Hnd'').
        destruct (List.find isUntyped (getPropertiesOf rest)); [done|].
        destruct IH as (dups & Hrun & Hs & Hfresh).
        exists (dup :: dups). split_and!.
        -- cbn [mbind Result_bind]. rewrite Hrun. simpl. rewrite Ed.
           by repeat (rewrite <- app_assoc; cbn [app]).
        -- simpl. rewrite Ea, Hs. cbn [app]. f_equal.
           apply getStructure_newProperty.
        -- by constructor.
      * assert (Heq : pre ++ PropertyMember p' :: rest ++ post
                      = (pre ++ [PropertyMember p']) ++ rest ++ post)
          by (repeat (rewrite <- app_assoc; cbn [app]); done).
        rewrite Heq in Hnd'' |- *.
        specialize (IH _ _ Hnd'').
        destruct (List.find isUntyped (getPropertiesOf rest)); [done|].
        destruct IH as (dups & Hrun & Hs & Hfresh).
        exists dups. split_and!; [|by simpl; rewrite Ea|done].
        cbn [mbind Result_bind]. rewrite Hrun. simpl. rewrite Ed.
        by repeat (rewrite <- app_assoc; cbn [app]).
  - (* another member *)
    rewrite nodeIds_other, getPropertiesOf_other.
    replace (pre ++ (OtherMember text :: rest) ++ post)
      with ((pre ++ [OtherMember text]) ++ rest ++ post) in *
      by (by rewrite <- app_assoc).
    specialize (IH _ _ Hnd).
    destruct (List.find isUntyped (getPropertiesOf rest)); [done|].
    destruct IH as (dups & Hrun & Hs & Hfresh).
    exists dups. split_and!; [|done..].
    rewrite Hrun. simpl. by repeat (rewrite <- app_assoc; cbn [app]).
Qed.
End UpdateProperties.

(** The loop over the properties, in closed form. *)
Lemma updateProperties_spec members :
  NoDup (nodeIds memberKey members) ->
  match List.find isUntyped (getPropertiesOf members) with
  | Some _ =>
      updateProperties members
      = Fatal (AssertionError "Unexpected structure.type type: undefined")
  | None =>
      exists dups,
        updateProperties members
        = Ok (flat_map processedMember members ++ map PropertyMember dups)
        /\ map getStructure dups = flat_map duplicateOf members
        /\ Forall (fun d => prop_id d ∉ nodeIds memberKey members) dups
  end.
Proof.
  intros Hnd. unfold updateProperties.
  pose proof (updateProperties_loop (nodeIds memberKey members)
                members [] []) as H.
  rewrite app_nil_r in H. cbn [app] in H. specialize (H Hnd).
  destruct (List.find isUntyped (getPropertiesOf members)); [done|].
  destruct H as (dups & Hrun & Hs & Hfresh). by exists dups.
Qed.

(** * The Extractor *)


Lemma firstSome_app {A T} (cb : A -> option T) l1 l2 :
  firstSome cb (l1 ++ l2)
  = match firstSome cb l1 with
    | Some v => Some v
    | None => firstSome cb l2
    end.
Proof.
  induction l1 as [|x l1 IH]; simpl; [done|]. by destruct (cb x).
Qed.

(** [forEachDescendant] returns the first value along the descendants. *)
Lemma forEachDescendant_firstSome {T} (cb : TsNode -> option T) node :
  forEachDescendant cb node = firstSome cb (descendants node).
Proof.
  induction node as [text|l r IHl IHr|text children IH]
    using TsNode_nested_ind.
  - done.
  - simpl. rewrite firstSome_app. simpl. rewrite IHl, IHr.
    destruct (cb l); [done|]. by destruct (firstSome cb (descendants l)).
  - simpl. induction IH as [|c cs Hc _ IHcs]; [done|].
    simpl. rewrite firstSome_app, Hc, IHcs.
    destruct (cb c); [done|]. by destruct (firstSome cb (descendants c)).
Qed.

Lemma targetInterfaceIdentifier_isTarget node :
  targetInterfaceIdentifier node
  = if isTarget node
    then match node with
         | QualifiedName _ r => Some r
         | _ => None
         end
    else None.
Proof.
  by destruct node as [text|l r|text children].
Qed.

Lemma firstSome_target l :
  getText <$> firstSome targetInterfaceIdentifier l
  = rightText <$> List.find isTarget l.
Proof.
  induction l as [|x l IH]; simpl; [done|].
  rewrite targetInterfaceIdentifier_isTarget.
  destruct (isTarget x) eqn:E; [|done].
  destruct x as [text|a b|text children]; simpl in *; done.
Qed.

Lemma forEachDescendant_firstTarget typeNode :
  getText <$> forEachDescendant targetInterfaceIdentifier typeNode
  = firstTarget typeNode.
Proof.
  rewrite forEachDescendant_firstSome. apply firstSome_target.
Qed.

(** One turn of the loop of the Extractor. *)
Lemma extractProperty_focus p pre post names :
  prop_id p ∉ nodeIds memberKey pre ->
  prop_id p ∉ nodeIds memberKey post ->
  match targetOf p with
  | Some text =>
      extractProperty (prop_id p) (pre ++ PropertyMember p :: post, names)
      = Ok (pre ++ PropertyMember (setType text p) :: post, names ∪ {[ text ]})
  | None =>
      exists e,
        extractProperty (prop_id p) (pre ++ PropertyMember p :: post, names)
        = Fatal e
  end.
Proof.
  intros Hpre Hpost. unfold extractProperty, targetOf.
  rewrite lookupProperty_focus by done. cbn [mbind Result_bind].
  unfold getTypeNodeOrThrow.
  destruct (prop_typeNode p) as [typeNode|]; simpl; [|by eexists].
  rewrite <- forEachDescendant_firstTarget.
  destruct (forEachDescendant targetInterfaceIdentifier typeNode) as [target|];
    simpl; [|by eexists].
  by rewrite updateProperty_focus.
Qed.

Lemma extractProperties_loop rest : forall pre names,
  NoDup (nodeIds memberKey (pre ++ rest)) ->
  match List.find hasNoTarget (getPropertiesOf rest) with
  | Some _ =>
      exists e,
        forEachM extractProperty (nodeIds memberKey rest) (pre ++ rest, names)
        = Fatal e
  | None =>
      forEachM extractProperty (nodeIds memberKey rest) (pre ++ rest, names)
      = Ok (pre ++ map retargeted rest,
            names ∪ list_to_set (omap targetOf (getPropertiesOf rest)))
  end.
Proof.
  induction rest as [|[p|text] rest IH]; intros pre names Hnd.
  - simpl. by rewrite app_nil_r, (right_id_L ∅ (∪)).
  - rewrite nodeIds_property, getPropertiesOf_property.
    cbn [forEachM List.find].
    assert (Hids : (prop_id p ∉ nodeIds memberKey pre)
                   /\ (prop_id p ∉ nodeIds memberKey rest)).
    { rewrite nodeIds_app, nodeIds_property in Hnd.
      apply NoDup_app in Hnd as (Hpre & Hdisj & Hrest).
      apply NoDup_cons in Hrest as [Hp Hrest]. split; [|done].
      intros Hin. apply (Hdisj _ Hin). by left. }
    destruct Hids as [Hpre Hpost].
    pose proof (extractProperty_focus p pre rest names Hpre Hpost) as Hstep.
    unfold hasNoTarget at 1.
    destruct (targetOf p) as [text|] eqn:Et.
    + rewrite Hstep. cbn [mbind Result_bind].
      assert (Heq : pre ++ PropertyMember (setType text p) :: rest
                    = (pre ++ [PropertyMember (setType text p)]) ++ rest)
        by (by rewrite <- app_assoc).
      rewrite Heq.
      specialize (IH (pre ++ [PropertyMember (setType text p)])
                    (names ∪ {[ text ]})).
      destruct (List.find hasNoTarget (getPropertiesOf rest)).
      * apply IH. rewrite <- Heq.
        rewrite nodeIds_app, nodeIds_property in Hnd |- *. exact Hnd.
      * rewrite IH.
        -- cbn [map retargeted]. rewrite Et, <- app_assoc.
           f_equal. f_equal.
           assert (Hom : omap targetOf (p :: getPropertiesOf rest)
                         = text :: omap targetOf (getPropertiesOf rest)).
           { cbn [omap list_omap]. by rewrite Et. }
           rewrite Hom, list_to_set_cons. by rewrite (assoc_L (∪)).
        -- rewrite <- Heq.
           rewrite nodeIds_app, nodeIds_property in Hnd |- *. exact Hnd.
    + destruct Hstep as [e He]. exists e. by rewrite He.
  - rewrite nodeIds_other, getPropertiesOf_other.
    assert (Heq : pre ++ OtherMember text :: rest
                  = (pre ++ [OtherMember text]) ++ rest)
      by (by rewrite <- app_assoc).
    rewrite Heq in Hnd |- *.
    specialize (IH _ names Hnd).
    destruct (List.find hasNoTarget (getPropertiesOf rest)); [done|].
    rewrite IH. simpl. by rewrite <- app_assoc.
Qed.

(** * The Normalizer *)

(** What a successful [updateAttributesInterface] returns. *)
Lemma updateAttributesInterface_Ok i i' :
  wellFormed i ->
  updateAttributesInterface i = Ok i' ->
  iface_name i' = iface_name i
  /\ iface_typeParameters i' = []
  /\ List.find isUnexpectedParent (map ext_expression (iface_extends i)) = None
  /\ map ext_expression (iface_extends i') = keptParents (iface_extends i)
  /\ Forall (fun e => ext_typeArguments e = "") (iface_extends i')
  /\ List.find isUntyped (getProperties i) = None
  /\ exists dups,
       iface_members i'
       = flat_map processedMember (iface_members i) ++ map PropertyMember dups
       /\ map getStructure dups = flat_map duplicateOf (iface_members i)
       /\ Forall (fun d => prop_id d ∉ nodeIds memberKey (iface_members i)) dups.
Proof.
  intros [Hext Hmem] Hrun. unfold updateAttributesInterface in Hrun.
  rewrite nodeIds_extends in Hext.
  pose proof (updateExtends_spec (iface_name i) _ Hext) as He.
  pose proof (updateProperties_spec _ Hmem) as Hp.
  unfold getProperties.
  destruct (List.find isUnexpectedParent _).
  { by rewrite He in Hrun. }
  destruct He as (exts' & He & Hexpr & Hargs).
  rewrite He in Hrun. cbn [mbind Result_bind] in Hrun.
  destruct (List.find isUntyped _).
  { by rewrite Hp in Hrun. }
  destruct Hp as (dups & Hp & Hs & Hfresh).
  rewrite Hp in Hrun. cbn [mbind Result_bind] in Hrun.
  injection Hrun as <-. simpl. split_and!; try done.
  by exists dups.
Qed.

(** ... and when it fails. *)
Lemma updateAttributesInterface_Fatal i :
  wellFormed i ->
  match List.find isUnexpectedParent (map ext_expression (iface_extends i)) with
  | Some x =>
      updateAttributesInterface i
      = Fatal (AssertionError (unexpectedParent (iface_name i) x))
  | None =>
      match List.find isUntyped (getProperties i) with
      | Some _ =>
          updateAttributesInterface i
          = Fatal (AssertionError "Unexpected structure.type type: undefined")
      | None => exists i', updateAttributesInterface i = Ok i'
      end
  end.
Proof.
  intros [Hext Hmem]. unfold updateAttributesInterface.
  rewrite nodeIds_extends in Hext.
  pose proof (updateExtends_spec (iface_name i) _ Hext) as He.
  pose proof (updateProperties_spec _ Hmem) as Hp.
  unfold getProperties.
  destruct (List.find isUnexpectedParent _).
  { by rewrite He. }
  destruct He as (exts' & He & Hexpr & Hargs). rewrite He.
  cbn [mbind Result_bind].
  destruct (List.find isUntyped _).
  { by rewrite Hp. }
  destruct Hp as (dups & Hp & Hs & Hfresh). rewrite Hp.
  cbn [mbind Result_bind]. by eexists.
Qed.

Lemma getExtendsText_bare e :
  ext_typeArguments e = "" -> getExtendsText e = ext_expression e.
Proof.
  intros H. unfold getExtendsText. rewrite H. apply RegexFacts.append_nil_r.
Qed.

Lemma map_getExtendsText_bare exts :
  Forall (fun e => ext_typeArguments e = "") exts ->
  map getExtendsText exts = map ext_expression exts.
Proof.
  induction 1 as [|e exts He _ IH]; simpl; [done|].
  by rewrite getExtendsText_bare, IH.
Qed.

Lemma keptParents_allowed exts :
  List.find isUnexpectedParent (map ext_expression exts) = None ->
  Forall (fun x => isAllowedParent x = true) (keptParents exts).
Proof.
  unfold keptParents. induction exts as [|e exts IH]; simpl; [constructor|].
  unfold isUnexpectedParent at 1.
  destruct (String.eqb (ext_expression e) "ClassAttributes"); simpl; [done|].
  destruct (isAllowedParent (ext_expression e)) eqn:Ea; simpl; [|done].
  intros H. constructor; [done|by apply IH].
Qed.

Example exampleLabel_updated :
  (fun i => (propertyNames i, map getExtendsText (iface_extends i)))
    <$> updateAttributesInterface exampleLabel
  = Ok (["form"; "htmlFor"; "className"; "onclick"; "for"; "class"],
        ["HTMLAttributes"]).
Proof. vm_compute. reflexivity. Qed.

Lemma elem_of_getPropertiesOf p members :
  p ∈ getPropertiesOf members <-> PropertyMember p ∈ members.
Proof.
  unfold getPropertiesOf. rewrite list_elem_of_omap. split.
  - intros ([q|text] & Hin & Hq); simpl in Hq; [|done]. by injection Hq as ->.
  - intros Hin. by exists (PropertyMember p).
Qed.

Lemma getPropertiesOf_app l1 l2 :
  getPropertiesOf (l1 ++ l2) = getPropertiesOf l1 ++ getPropertiesOf l2.
Proof. apply omap_app. Qed.

Lemma getPropertiesOf_properties ps :
  getPropertiesOf (map PropertyMember ps) = ps.
Proof. induction ps as [|p ps IH]; simpl; [done|]. by f_equal. Qed.

Lemma find_none_elem_of {A} (f : A -> bool) (l : list A) x :
  List.find f l = None -> x ∈ l -> f x = false.
Proof.
  intros Hf Hx. apply list_elem_of_In in Hx.
  by apply (List.find_none f l Hf x).
Qed.

Lemma aliasOf_Some propName alias :
  aliasOf propName = Some alias <->
  (propName = "className" /\ alias = "class")
  \/ (propName = "htmlFor" /\ alias = "for").
Proof.
  unfold aliasOf.
  destruct (String.eqb propName "className") eqn:Ec.
  - apply String.eqb_eq in Ec. subst. split; [intros [= <-]; by left|].
    by intros [[_ ->]|[[=] _]].
  - apply String.eqb_neq in Ec.
    destruct (String.eqb propName "htmlFor") eqn:Eh.
    + apply String.eqb_eq in Eh. subst. split; [intros [= <-]; by right|].
      by intros [[[=] _]|[_ ->]].
    + apply String.eqb_neq in Eh. split; [done|]. by intros [[? _]|[? _]].
Qed.

Lemma aliasOf_kept propName alias :
  aliasOf propName = Some alias ->
  isDroppedProperty propName = false /\ keepsItsCase propName = true
  /\ String.eqb propName "dangerouslySetInnerHTML" = false.
Proof.
  intros H. apply aliasOf_Some in H as [[-> _]|[-> _]]; by vm_compute.
Qed.

(** The structure of a kept property that is duplicated. *)
Lemma normalizedStructure_aliased p alias t :
  aliasOf (prop_name p) = Some alias ->
  type (getStructure p) = Some t ->
  normalizedStructure p = retyped (normalizeAttributeType t) (getStructure p).
Proof.
  intros Ha Ht. apply aliasOf_kept in Ha as (_ & Hk & Hd).
  unfold normalizedStructure.
  rewrite (normalizeStructure_typed _ _ t) by done.
  by rewrite Hk, Hd.
Qed.

Lemma isUntyped_false p :
  isUntyped p = false -> isDroppedProperty (prop_name p) = false ->
  exists t, type (getStructure p) = Some t.
Proof.
  unfold isUntyped. intros H Hd. rewrite Hd in H. simpl in H.
  apply negb_false_iff, bool_decide_eq_true in H as [typeNode Ht].
  exists (getText typeNode). simpl. by rewrite Ht.
Qed.

(** C2, as the code has it: a property called [className] or [htmlFor] of
    an interface that the Normalizer accepts is still there afterwards under
    its own name, unchanged (it is not lower-cased), together with a
    duplicate called [class] or [for]; both have the same type, the
    normalized type of the property. *)
Theorem aliased_property_and_duplicate i i' p alias :
  wellFormed i ->
  updateAttributesInterface i = Ok i' ->
  p ∈ getProperties i ->
  (prop_name p = "className" /\ alias = "class")
  \/ (prop_name p = "htmlFor" /\ alias = "for") ->
  exists original duplicate t,
    original ∈ getProperties i' /\ duplicate ∈ getProperties i'
    /\ prop_name original = prop_name p
    /\ prop_name duplicate = alias
    /\ type (getStructure p) = Some t
    /\ type (getStructure original) = Some (normalizeAttributeType t)
    /\ type (getStructure duplicate) = type (getStructure original).
Proof.
  intros Hwf Hrun Hp Halias. apply aliasOf_Some in Halias.
  apply updateAttributesInterface_Ok in Hrun
    as (_ & _ & _ & _ & _ & Htyped & dups & Hmem & Hs & _); [|done].
  pose proof (aliasOf_kept _ _ Halias) as (Hd & _ & _).
  destruct (isUntyped_false p) as [t Ht]; [|done|].
  { by eapply find_none_elem_of in Htyped. }
  pose proof (normalizedStructure_aliased p alias t Halias Ht) as Hn.
  apply elem_of_getPropertiesOf in Hp.
  assert (Hdup : renamed alias (normalizedStructure p)
                 ∈ map getStructure dups).
  { rewrite Hs. apply list_elem_of_In, in_flat_map.
    exists (PropertyMember p). split; [by apply list_elem_of_In|].
    simpl. rewrite Halias. by left. }
  apply list_elem_of_In, in_map_iff in Hdup as (d & Hd' & Hdin).
  apply list_elem_of_In in Hdin.
  exists (setStructure (normalizedStructure p) p), d, t.
  unfold getProperties. rewrite Hmem, getPropertiesOf_app,
    getPropertiesOf_properties.
  split_and!.
  - apply elem_of_app. left. apply elem_of_getPropertiesOf.
    apply list_elem_of_In, in_flat_map.
    exists (PropertyMember p). split; [by apply list_elem_of_In|].
    simpl. rewrite Hd. by left.
  - apply elem_of_app. by right.
  - simpl. by rewrite Hn.
  - change (prop_name d) with (name (getStructure d)). by rewrite Hd'.
  - done.
  - rewrite getStructure_setStructure. by rewrite Hn.
  - rewrite Hd', getStructure_setStructure. done.
Qed.

Ltac decide_closed := apply (bool_decide_unpack _); vm_compute; exact I.

Lemma aliased_property_and_duplicate_witness :
  exists original duplicate,
    prop_name original = "className" /\ prop_name duplicate = "class"
    /\ type (getStructure original) = Some "(boolean | 'true' | 'false')"
    /\ type (getStructure duplicate) = Some "(boolean | 'true' | 'false')".
Proof.
  destruct (updateAttributesInterface exampleLabel) as [i'|e] eqn:Hrun;
    [|by vm_compute in Hrun].
  destruct (aliased_property_and_duplicate exampleLabel i'
              {| prop_id := 3; prop_name := "className";
                 prop_typeNode := Some (Syntax "Booleanish" []);
                 prop_hasQuestionToken := true; prop_isReadonly := false;
                 prop_docs := [] |} "class")
    as (original & duplicate & t & _ & _ & Ho & Hd & Ht & Hto & Htd).
  - decide_closed.
  - exact Hrun.
  - apply list_elem_of_In. simpl. right. right. left. reflexivity.
  - left. split; reflexivity.
  - injection Ht as <-. rewrite Hto in Htd.
    exists original, duplicate. split_and!; assumption.
Defined.

(** C2 as the specification has it fails: the interface keeps [className]
    and gets [class], and has no property with the lower-case name
    [classname]. *)
Lemma lowercase_className_absent :
  "className" ∈ propertyNames exampleLabel
  /\ propertyNames <$> updateAttributesInterface exampleLabel
     = Ok ["form"; "htmlFor"; "className"; "onclick"; "for"; "class"]
  /\ toLowerCase "className"
     ∉ ["form"; "htmlFor"; "className"; "onclick"; "for"; "class"].
Proof.
  split_and!; [decide_closed|by vm_compute|decide_closed].
Qed.

Lemma find_isUnexpectedParent_None exts :
  (forall e, e ∈ exts ->
             ext_expression e = "ClassAttributes"
             \/ isAllowedParent (ext_expression e) = true) ->
  List.find isUnexpectedParent (map ext_expression exts) = None.
Proof.
  intros H. induction exts as [|e exts IH]; simpl; [done|].
  unfold isUnexpectedParent at 1.
  destruct (H e) as [Hc|Ha]; [by left| |].
  - rewrite Hc. simpl. apply IH. intros x Hx. apply H. by right.
  - rewrite Ha, andb_false_r. apply IH. intros x Hx. apply H. by right.
Qed.

Lemma find_isUntyped_None ps :
  (forall p, p ∈ ps ->
             isDroppedProperty (prop_name p) = true
             \/ is_Some (prop_typeNode p)) ->
  List.find isUntyped ps = None.
Proof.
  intros H. induction ps as [|p ps IH]; simpl; [done|].
  unfold isUntyped at 1.
  destruct (H p) as [Hd|Ht]; [by left| |].
  - rewrite Hd. simpl. apply IH. intros x Hx. apply H. by right.
  - rewrite bool_decide_eq_true_2, andb_false_r by done.
    apply IH. intros x Hx. apply H. by right.
Qed.

(** C5: of the parents of an interface that the Normalizer processes,
    [ClassAttributes] is removed; a parent that is then not one of
    [AriaAttributes], [DOMAttributes], [HTMLAttributes],
    [MediaHTMLAttributes] and [SVGAttributes] makes the run fail, with
    the message that names it; and otherwise the loop over the parents
    goes through and every other parent is replaced by its bare name,
    without type arguments, in the order of the clause. *)
Theorem extends_clauses_rewritten i :
  wellFormed i ->
  ((exists e, e ∈ iface_extends i
              /\ ext_expression e <> "ClassAttributes"
              /\ isAllowedParent (ext_expression e) = false) ->
   exists e, e ∈ iface_extends i
             /\ ext_expression e <> "ClassAttributes"
             /\ isAllowedParent (ext_expression e) = false
             /\ updateAttributesInterface i
                = Fatal (AssertionError
                           ("Interface " +:+ iface_name i
                            +:+ " has unexpected parent interface: "
                            +:+ ext_expression e)))
  /\ ((forall e, e ∈ iface_extends i ->
                 ext_expression e = "ClassAttributes"
                 \/ isAllowedParent (ext_expression e) = true) ->
      exists exts',
        updateExtends (iface_name i) (iface_extends i) = Ok exts'
        /\ map getExtendsText exts'
           = List.filter (fun x => negb (String.eqb x "ClassAttributes"))
               (map ext_expression (iface_extends i))
        /\ Forall (fun e => ext_typeArguments e = "") exts'
        /\ ((forall p, p ∈ getProperties i ->
                       isDroppedProperty (prop_name p) = true
                       \/ is_Some (prop_typeNode p)) ->
            exists i', updateAttributesInterface i = Ok i'
                       /\ iface_extends i' = exts'))
  /\ (forall i', updateAttributesInterface i = Ok i' ->
        map getExtendsText (iface_extends i')
        = List.filter (fun x => negb (String.eqb x "ClassAttributes"))
            (map ext_expression (iface_extends i))
        /\ Forall (fun e => ext_typeArguments e = ""
                            /\ isAllowedParent (ext_expression e) = true)
             (iface_extends i')).
Proof.
  intros Hwf. split_and!.
  - intros (e & Hin & Hne & Hbad).
    pose proof (updateAttributesInterface_Fatal i Hwf) as H.
    destruct (List.find isUnexpectedParent _) as [x|] eqn:Ef.
    + apply List.find_some in Ef as [Hx Hu].
      apply in_map_iff in Hx as (e' & <- & He').
      apply list_elem_of_In in He'. unfold isUnexpectedParent in Hu.
      apply andb_true_iff in Hu as [Hc Ha].
      apply negb_true_iff in Hc, Ha. apply String.eqb_neq in Hc.
      exists e'. by split_and!.
    + exfalso.
      assert (Hx : isUnexpectedParent (ext_expression e) = false).
      { eapply find_none_elem_of; [exact Ef|].
        apply list_elem_of_In, in_map. by apply list_elem_of_In. }
      unfold isUnexpectedParent in Hx. rewrite Hbad in Hx.
      apply String.eqb_neq in Hne. by rewrite Hne in Hx.
  - intros Hparents. destruct Hwf as [Hext Hmem].
    rewrite nodeIds_extends in Hext.
    pose proof (updateExtends_spec (iface_name i) _ Hext) as He.
    rewrite find_isUnexpectedParent_None in He by done.
    destruct He as (exts' & He & Hexpr & Hargs).
    exists exts'. split_and!; [done| |done|].
    + by rewrite map_getExtendsText_bare.
    + intros Hprops.
      pose proof (updateProperties_spec _ Hmem) as Hp.
      fold (getProperties i) in Hp.
      rewrite find_isUntyped_None in Hp by done.
      destruct Hp as (dups & Hp & _).
      unfold updateAttributesInterface. rewrite He.
      cbn [mbind Result_bind]. rewrite Hp. cbn [mbind Result_bind].
      by eexists.
  - intros i' Hrun.
    apply updateAttributesInterface_Ok in Hrun
      as (_ & _ & Hfind & Hexpr & Hargs & _); [|done].
    split.
    + by rewrite map_getExtendsText_bare.
    + apply keptParents_allowed in Hfind. rewrite <- Hexpr in Hfind.
      apply Forall_forall. intros e He. split.
      * by eapply Forall_forall in Hargs.
      * eapply Forall_forall in Hfind; [exact Hfind|].
        apply list_elem_of_In, in_map. by apply list_elem_of_In.
Qed.

Lemma extends_clauses_rewritten_witness :
  updateAttributesInterface exampleUnexpected
  = Fatal (AssertionError
             "Interface Props has unexpected parent interface: React.HTMLAttributes")
  /\ exists i',
       updateAttributesInterface exampleParents = Ok i'
       /\ map getExtendsText (iface_extends i')
          = ["HTMLAttributes"; "AriaAttributes"].
Proof.
  split.
  - destruct (extends_clauses_rewritten exampleUnexpected) as [Hfail _];
      [decide_closed|].
    destruct Hfail as (e & He & _ & _ & Hrun).
    + eexists. split; [apply list_elem_of_here|]. split; [discriminate|].
      reflexivity.
    + apply list_elem_of_In in He. simpl in He.
      destruct He as [<-|[]]. exact Hrun.
  - destruct (extends_clauses_rewritten exampleParents) as (_ & Haccept & _);
      [decide_closed|].
    destruct Haccept as (exts' & _ & Htexts & _ & Hrun).
    + intros e He. apply list_elem_of_In in He. simpl in He.
      destruct He as [<-|[<-|[<-|[]]]];
        [right; reflexivity|left; reflexivity|right; reflexivity].
    + destruct Hrun as (i' & Hrun & Hexts).
      * intros p Hp. by apply elem_of_nil in Hp.
      * exists i'. split; [exact Hrun|]. rewrite Hexts. exact Htexts.
Defined.

Example exampleParents_updated :
  (fun i => map getExtendsText (iface_extends i))
    <$> updateAttributesInterface exampleParents
  = Ok ["HTMLAttributes"; "AriaAttributes"].
Proof. by vm_compute. Qed.

Example exampleUnexpected_fails :
  updateAttributesInterface exampleUnexpected
  = Fatal (AssertionError
             "Interface Props has unexpected parent interface: React.HTMLAttributes").
Proof. by vm_compute. Qed.

(** ** Event handlers *)

Lemma matchHereCI_same p mid post :
  sameIgnoringCase mid p -> Regex.matchHereCI p (mid +:+ post) = true.
Proof.
  unfold sameIgnoringCase. revert mid.
  induction p as [|a p IH]; intros [|c mid] H; simpl in *; try done.
  injection H as Hc Hrest. rewrite Hc, Ascii.eqb_refl. by apply IH.
Qed.

Lemma testCI_found p pre x :
  Regex.matchHereCI p x = true -> Regex.testCI p (pre +:+ x) = true.
Proof.
  intros Hx. induction pre as [|c pre IH]; simpl.
  - destruct x; simpl in *; by rewrite Hx.
  - rewrite IH. apply orb_true_r.
Qed.

(** A property with such a type, in an interface that the Normalizer
    accepts: unless it is dropped or is [dangerouslySetInnerHTML], it ends
    with the type [string], its name in lower case (but for [className] and
    [htmlFor]) and its question mark as it was. *)
Lemma event_handler_property i i' p t :
  wellFormed i ->
  updateAttributesInterface i = Ok i' ->
  p ∈ getProperties i ->
  isDroppedProperty (prop_name p) = false ->
  prop_name p <> "dangerouslySetInnerHTML" ->
  type (getStructure p) = Some t ->
  Regex.testCI "EventHandler" t = true ->
  exists p',
    p' ∈ getProperties i'
    /\ prop_id p' = prop_id p
    /\ type (getStructure p') = Some "string"
    /\ hasQuestionToken (getStructure p') = prop_hasQuestionToken p
    /\ prop_name p' = if keepsItsCase (prop_name p) then prop_name p
                      else toLowerCase (prop_name p).
Proof.
  intros Hwf Hrun Hp Hd Hn Ht Hh.
  apply updateAttributesInterface_Ok in Hrun
    as (_ & _ & _ & _ & _ & _ & dups & Hmem & _); [|done].
  apply elem_of_getPropertiesOf in Hp.
  assert (Hs : normalizedStructure p
               = (if negb (keepsItsCase (prop_name p))
                  then renamed (toLowerCase (prop_name p))
                         (retyped "string" (getStructure p))
                  else retyped "string" (getStructure p))).
  { unfold normalizedStructure.
    rewrite (normalizeStructure_typed _ _ t) by done.
    apply String.eqb_neq in Hn. rewrite Hn. cbn [negb].
    unfold normalizeAttributeType. by rewrite Hh. }
  exists (setStructure (normalizedStructure p) p).
  unfold getProperties. rewrite Hmem, getPropertiesOf_app. split_and!.
  - apply elem_of_app. left. apply elem_of_getPropertiesOf.
    apply list_elem_of_In, in_flat_map.
    exists (PropertyMember p). split; [by apply list_elem_of_In|].
    simpl. rewrite Hd. by left.
  - done.
  - rewrite getStructure_setStructure, Hs.
    by destruct (keepsItsCase (prop_name p)).
  - rewrite getStructure_setStructure, Hs.
    by destruct (keepsItsCase (prop_name p)).
  - simpl. rewrite Hs. by destruct (keepsItsCase (prop_name p)).
Qed.

(** C6: a type that has [EventHandler] in it, in whatever case, is
    normalized to [string]; and the property
    [onClick?: MouseEventHandler<T>] becomes [onclick?: string]. *)
Theorem event_handler_becomes_string :
  (forall s pre mid post,
     s = pre +:+ mid +:+ post -> sameIgnoringCase mid "EventHandler" ->
     normalizeAttributeType s = "string")
  /\ structures <$> updateAttributesInterface exampleOnClick
     = Ok [{| name := "onclick"; type := Some "string";
              hasQuestionToken := true; isReadonly := false; docs := [] |}].
Proof.
  split; [|by vm_compute].
  intros s pre mid post -> Hmid. unfold normalizeAttributeType.
  by rewrite testCI_found by (by apply matchHereCI_same).
Qed.

Lemma event_handler_becomes_string_witness :
  normalizeAttributeType "(event: MouseEVENTHANDLER<T>) => void" = "string".
Proof.
  apply (proj1 event_handler_becomes_string _
           "(event: Mouse" "EVENTHANDLER" "<T>) => void");
    reflexivity.
Defined.

(** ** The duplicates *)

Lemma nodeIds_members members :
  nodeIds memberKey members = map prop_id (getPropertiesOf members).
Proof.
  induction members as [|[p|text] l IH].
  - done.
  - rewrite nodeIds_property, getPropertiesOf_property. cbn [map].
    by rewrite IH.
  - by rewrite nodeIds_other, getPropertiesOf_other.
Qed.

(** C10: the members of the normalized interface are the original members,
    each dropped or rewritten where it stood, followed by the duplicates:
    one for each original [className] or [htmlFor] property, in their
    order, with the normalized structure of its original under the name
    [class] or [for].  No duplicate is one of the nodes that the loop runs
    over (the properties that the interface had when the loop began), so
    that none is visited. *)
Theorem duplicates_appended_not_visited i i' :
  wellFormed i ->
  updateAttributesInterface i = Ok i' ->
  exists duplicates,
    iface_members i'
    = flat_map processedMember (iface_members i)
      ++ map PropertyMember duplicates
    /\ map getStructure duplicates = flat_map duplicateOf (iface_members i)
    /\ Forall (fun d => prop_id d ∉ map prop_id (getProperties i)) duplicates.
Proof.
  intros Hwf Hrun.
  apply updateAttributesInterface_Ok in Hrun
    as (_ & _ & _ & _ & _ & _ & dups & Hmem & Hs & Hfresh); [|done].
  exists dups. split_and!; [done..|].
  unfold getProperties. by rewrite <- nodeIds_members.
Qed.

Lemma duplicates_appended_not_visited_witness :
  exists i' duplicates,
    updateAttributesInterface exampleLabel = Ok i'
    /\ iface_members i'
       = flat_map processedMember (iface_members exampleLabel)
         ++ map PropertyMember duplicates
    /\ map prop_name duplicates = ["for"; "class"].
Proof.
  destruct (updateAttributesInterface exampleLabel) as [i'|e] eqn:Hrun;
    [|by vm_compute in Hrun].
  destruct (duplicates_appended_not_visited exampleLabel i')
    as (duplicates & Hmem & Hs & _); [decide_closed|exact Hrun|].
  exists i', duplicates. split_and!; [reflexivity|exact Hmem|].
  transitivity (map name (map getStructure duplicates));
    [by rewrite List.map_map|].
  rewrite Hs. reflexivity.
Defined.

(** * The Extractor *)

Lemma find_hasNoTarget_None ps :
  List.find hasNoTarget ps = None <-> forall p, p ∈ ps -> is_Some (targetOf p).
Proof.
  split.
  - intros Hf p Hp. eapply find_none_elem_of in Hf; [|exact Hp].
    unfold hasNoTarget in Hf. by destruct (targetOf p).
  - intros H. induction ps as [|p ps IH]; simpl; [done|].
    destruct (H p) as [text Ht]; [by left|].
    unfold hasNoTarget at 1. rewrite Ht. apply IH.
    intros q Hq. apply H. by right.
Qed.

(** The first target, spelled out: the descendants before it are not
    qualified names [React.X] with an identifier [X] other than
    [DetailedHTMLProps]; it is one. *)
Lemma firstTarget_Some typeNode text :
  firstTarget typeNode = Some text <->
  exists before l r after,
    descendants typeNode = before ++ QualifiedName l r :: after
    /\ Forall (fun n => isTarget n = false) before
    /\ getText l = "React" /\ isIdentifier r = true
    /\ getText r <> "DetailedHTMLProps" /\ text = getText r.
Proof.
  unfold firstTarget. generalize (descendants typeNode) as ds. intros ds.
  split.
  - induction ds as [|d ds IH]; simpl; [done|].
    destruct (isTarget d) eqn:Ed; simpl.
    + intros [= <-]. destruct d as [t|l r|t cs]; simpl in Ed; [done| |done].
      apply andb_true_iff in Ed as [Ed Hn].
      apply andb_true_iff in Ed as [Hl Hr].
      apply String.eqb_eq in Hl. apply negb_true_iff, String.eqb_neq in Hn.
      exists [], l, r, ds. by split_and!.
    + intros H. destruct (IH H) as (before & l & r & after & -> & Hb & Hrest).
      exists (d :: before), l, r, after. split_and!; [done| |apply Hrest..].
      by constructor.
  - intros (before & l & r & after & -> & Hb & Hl & Hr & Hn & ->).
    induction Hb as [|b before Hb _ IH]; simpl.
    + rewrite Hl, Hr. apply String.eqb_neq in Hn. by rewrite Hn.
    + by rewrite Hb.
Qed.

(** A property without a target: it has no type, or no descendant of its
    type is a target. *)
Lemma targetOf_None p :
  targetOf p = None <->
  forall typeNode,
    prop_typeNode p = Some typeNode ->
    Forall (fun d => isTarget d = false) (descendants typeNode).
Proof.
  unfold targetOf, firstTarget.
  destruct (prop_typeNode p) as [typeNode|]; simpl.
  - split.
    + intros H n [= <-]. apply Forall_forall. intros d Hd.
      destruct (List.find isTarget (descendants typeNode)) eqn:Ef; [done|].
      by eapply find_none_elem_of in Ef.
    + intros H. specialize (H typeNode eq_refl).
      destruct (List.find isTarget (descendants typeNode)) as [d|] eqn:Ef;
        [|done].
      apply List.find_some in Ef as [Hd Ht]. apply list_elem_of_In in Hd.
      eapply Forall_forall in H; [|exact Hd]. by rewrite Ht in H.
  - split; [by intros _ n|done].
Qed.

Lemma retargetedFrom_retargetedProperty p :
  is_Some (targetOf p) -> retargetedFrom p (retargetedProperty p).
Proof.
  intros [text Ht]. unfold retargetedFrom, retargetedProperty. rewrite Ht.
  split_and!; [done..|].
  unfold targetOf in Ht. destruct (prop_typeNode p) as [typeNode|]; [|done].
  simpl in Ht.
  apply firstTarget_Some in Ht
    as (before & l & r & after & Hd & Hb & Hl & Hr & Hn & ->).
  by exists typeNode, before, l, r, after.
Qed.

Lemma getPropertiesOf_retargeted members :
  getPropertiesOf (map retargeted members)
  = map retargetedProperty (getPropertiesOf members).
Proof.
  induction members as [|[p|text] l IH]; simpl; [done| |done].
  unfold retargetedProperty. destruct (targetOf p); simpl;
    fold (getPropertiesOf (map retargeted l)); by rewrite IH.
Qed.

Lemma otherMembers_retargeted members :
  otherMembers (map retargeted members) = otherMembers members.
Proof.
  induction members as [|[p|text] l IH]; simpl; [done| |].
  - by destruct (targetOf p).
  - change (otherMembers (OtherMember text :: ?l))
      with (text :: otherMembers l). by rewrite IH.
Qed.

(** C4: the Extractor gives every property of [IntrinsicElements] the type
    [X], the text of the right-hand identifier of the first qualified name
    below its type, in document order, whose left-hand side is [React] and
    whose right-hand side is an identifier [X] other than
    [DetailedHTMLProps] (a target); nothing else of the interface changes;
    the names that it returns are the types that the properties then have;
    and it fails when a property has no type or no target below it. *)
Theorem extractor_retargets_properties sourceFile i :
  getIntrinsicElements sourceFile = Ok i ->
  NoDup (map prop_id (getProperties i)) ->
  ((forall p, p ∈ getProperties i ->
              exists typeNode d,
                prop_typeNode p = Some typeNode
                /\ d ∈ descendants typeNode
                /\ isTarget d = true) ->
   exists i' names,
     extractIntrinsicElementsInterface sourceFile = Ok (i', names)
     /\ i' = withMembers i (iface_members i')
     /\ Forall2 retargetedFrom (getProperties i) (getProperties i')
     /\ otherMembers (iface_members i') = otherMembers (iface_members i)
     /\ (forall text,
           text ∈ names <->
           exists p', p' ∈ getProperties i'
                      /\ type (getStructure p') = Some text))
  /\ ((exists p, p ∈ getProperties i
                 /\ forall typeNode,
                      prop_typeNode p = Some typeNode ->
                      Forall (fun d => isTarget d = false)
                        (descendants typeNode)) ->
      exists e, extractIntrinsicElementsInterface sourceFile = Fatal e).
Proof.
  intros Hi Hnd. unfold extractIntrinsicElementsInterface. rewrite Hi.
  cbn [mbind Result_bind].
  unfold getProperties in *. rewrite <- nodeIds_members in Hnd.
  pose proof (extractProperties_loop (iface_members i) [] ∅ Hnd) as Hloop.
  cbn [app] in Hloop. split.
  - intros Htargets.
    assert (Hall : forall p, p ∈ getPropertiesOf (iface_members i) ->
                             is_Some (targetOf p)).
    { intros p Hp. destruct (targetOf p) as [text|] eqn:Et; [by eexists|].
      exfalso. destruct (Htargets p Hp) as (typeNode & d & Hty & Hd & Hr).
      pose proof (proj1 (targetOf_None p) Et typeNode Hty) as Hnone.
      eapply Forall_forall in Hnone; [|exact Hd]. by rewrite Hr in Hnone. }
    pose proof (proj2 (find_hasNoTarget_None _) Hall) as Hfind.
    rewrite Hfind in Hloop. rewrite Hloop. cbn [mbind Result_bind].
    eexists _, _. split; [reflexivity|].
    cbn [iface_members withMembers]. rewrite getPropertiesOf_retargeted.
    split_and!.
    + done.
    + apply Forall2_fmap_r, Forall_Forall2_diag, Forall_forall.
      intros p Hp. by apply retargetedFrom_retargetedProperty, Hall.
    + apply otherMembers_retargeted.
    + intros text. rewrite (left_id_L ∅ (∪)).
      rewrite elem_of_list_to_set, list_elem_of_omap. split.
      * intros (p & Hp & Ht). exists (retargetedProperty p). split.
        -- apply list_elem_of_In, in_map. by apply list_elem_of_In.
        -- unfold retargetedProperty. by rewrite Ht.
      * intros (p' & Hp' & Ht).
        apply list_elem_of_In, in_map_iff in Hp' as (p & <- & Hp).
        apply list_elem_of_In in Hp. exists p. split; [done|].
        destruct (Hall p Hp) as [text' Ht']. unfold retargetedProperty in Ht.
        rewrite Ht' in Ht. simpl in Ht. by injection Ht as <-.
  - intros (p & Hp & Hnone). apply targetOf_None in Hnone.
    destruct (List.find hasNoTarget _) eqn:Ef.
    + destruct Hloop as [e He]. exists e. by rewrite He.
    + eapply find_none_elem_of in Ef; [|exact Hp].
      unfold hasNoTarget in Ef. by rewrite Hnone in Ef.
Qed.

Lemma extractor_retargets_properties_witness :
  exists i' names,
    extractIntrinsicElementsInterface exampleReact = Ok (i', names)
    /\ Forall2 retargetedFrom (getProperties exampleIntrinsicElements)
         (getProperties i')
    /\ map (fun p' => (prop_name p', type (getStructure p')))
         (getProperties i')
       = [("a", Some "AnchorHTMLAttributes"); ("svg", Some "SVGProps");
          ("view", Some "Attributes")]
    /\ ("SVGProps" ∈ names <->
        exists p', p' ∈ getProperties i'
                   /\ type (getStructure p') = Some "SVGProps").
Proof.
  destruct (extractor_retargets_properties exampleReact
              exampleIntrinsicElements) as [Hok _].
  - reflexivity.
  - decide_closed.
  - destruct Hok as (i' & names & Hrun & _ & Hprops & _ & Hnames).
    + intros p Hp. apply list_elem_of_In in Hp. simpl in Hp.
      destruct Hp as [<-|[<-|[<-|[]]]].
      * exists (detailedProps "AnchorHTMLAttributes" "HTMLAnchorElement"),
          (QualifiedName (Identifier "React")
             (Identifier "AnchorHTMLAttributes")).
        split_and!; [reflexivity| |reflexivity].
        apply list_elem_of_In. simpl. auto 10.
      * exists (plainProps "SVGProps" "SVGSVGElement"),
          (QualifiedName (Identifier "React") (Identifier "SVGProps")).
        split_and!; [reflexivity| |reflexivity].
        apply list_elem_of_In. simpl. auto.
      * exists (plainProps "Attributes" "SVGViewElement"),
          (QualifiedName (Identifier "React") (Identifier "Attributes")).
        split_and!; [reflexivity| |reflexivity].
        apply list_elem_of_In. simpl. auto.
    + exists i', names. split_and!; [exact Hrun|exact Hprops| |apply Hnames].
      vm_compute in Hrun. injection Hrun as <- _. reflexivity.
Defined.

Example exampleReact_extracted :
  (fun r => map (fun p => (prop_name p, type (getStructure p)))
              (getProperties r.1))
    <$> extractIntrinsicElementsInterface exampleReact
  = Ok [("a", Some "AnchorHTMLAttributes"); ("svg", Some "SVGProps");
        ("view", Some "Attributes")].
Proof. by vm_compute. Qed.

(** * The second pass *)

Lemma updateAttributesInterface_name i i' :
  updateAttributesInterface i = Ok i' -> iface_name i' = iface_name i.
Proof.
  unfold updateAttributesInterface. intros H.
  apply bind_Ok in H as (exts & _ & H).
  apply bind_Ok in H as (members & _ & H).
  by injection H as <-.
Qed.

(** C1, as the code has it: the second pass extracts every interface and
    type alias of the source library whose name is in the Type-Name Set,
    once for each declaration and in document order, an interface as the
    Normalizer leaves it and a type alias as it is; so that a name that no
    declaration has is skipped and a name that several declarations have
    is extracted as often; the pass succeeds when the Normalizer does on
    each of these interfaces, and fails when it fails on one of them. *)
Theorem extraction_follows_declarations typeNames all :
  (forall extracted,
     extractNodes typeNames all = Ok extracted ->
     Forall2 extractedFrom (List.filter (isNamedIn typeNames) all) extracted
     /\ map getName extracted
        = List.filter (fun typeName => bool_decide (typeName ∈ typeNames))
            (map getName all))
  /\ ((forall i, InterfaceNode i ∈ all -> iface_name i ∈ typeNames ->
                 exists i', updateAttributesInterface i = Ok i') ->
      exists extracted, extractNodes typeNames all = Ok extracted)
  /\ ((exists i e, InterfaceNode i ∈ all /\ iface_name i ∈ typeNames
                   /\ updateAttributesInterface i = Fatal e) ->
      exists e, extractNodes typeNames all = Fatal e).
Proof.
  split_and!.
  - induction all as [|n all IH]; intros extracted Hrun; simpl in *.
    + injection Hrun as <-. by split; [constructor|].
    + unfold isNamedIn at 1.
      destruct (bool_decide (getName n ∈ typeNames)) eqn:En; [|by apply IH].
      destruct n as [i|t].
      * apply bind_Ok in Hrun as (i' & Hi & Hrun).
        apply bind_Ok in Hrun as (rest & Hrest & Hrun).
        injection Hrun as <-. destruct (IH rest Hrest) as [Hall Hnames].
        split.
        -- constructor; [by exists i'|done].
        -- simpl. by rewrite (updateAttributesInterface_name i i'), Hnames.
      * apply bind_Ok in Hrun as (rest & Hrest & Hrun).
        injection Hrun as <-. destruct (IH rest Hrest) as [Hall Hnames].
        split; [by constructor|]. simpl. by rewrite Hnames.
  - induction all as [|n all IH]; intros Hok; simpl; [by eexists|].
    destruct IH as [rest Hrest].
    { intros i Hi. apply Hok. by right. }
    destruct (bool_decide (getName n ∈ typeNames)) eqn:En; [|by eexists].
    apply bool_decide_eq_true in En.
    destruct n as [i|t].
    + destruct (Hok i) as [i' Hi']; [by left|done|].
      rewrite Hi', Hrest. by eexists.
    + rewrite Hrest. by eexists.
  - intros (i & e & Hin & Hname & Hfail).
    induction all as [|n all IH]; [by apply elem_of_nil in Hin|].
    simpl. apply elem_of_cons in Hin as [<-|Hin].
    + simpl. rewrite bool_decide_eq_true_2 by done. rewrite Hfail.
      by eexists.
    + destruct (IH Hin) as [e' He'].
      destruct (bool_decide (getName n ∈ typeNames)); [|by eexists].
      destruct n as [j|t].
      * destruct (updateAttributesInterface j); simpl; [|by eexists].
        rewrite He'. by eexists.
      * rewrite He'. by eexists.
Qed.

Lemma extraction_follows_declarations_witness :
  (exists extracted,
     extractNodes {[ "HTMLAttributes"; "AriaAttributes" ]}
       (getAllInterfacesAndTypeAliases exampleReact)
     = Ok extracted
     /\ Forall2 extractedFrom
          [InterfaceNode exampleHTMLAttributes;
           InterfaceNode exampleHTMLAttributesAgain]
          extracted)
  /\ exists e,
       extractNodes {[ "Props" ]} [InterfaceNode exampleUnexpected] = Fatal e.
Proof.
  split.
  - destruct (extraction_follows_declarations
                {[ "HTMLAttributes"; "AriaAttributes" ]}
                (getAllInterfacesAndTypeAliases exampleReact))
      as (Hall & Hok & _).
    destruct Hok as [extracted Hrun].
    + intros i Hi Hname. apply list_elem_of_In in Hi. simpl in Hi.
      destruct Hi as [Hi|[Hi|[Hi|[Hi|[Hi|[Hi|[Hi|[]]]]]]]];
        try discriminate Hi;
        injection Hi as <-; vm_compute; eexists; reflexivity.
    + exists extracted. split; [exact Hrun|].
      exact (proj1 (Hall extracted Hrun)).
  - destruct (extraction_follows_declarations {[ "Props" ]}
                [InterfaceNode exampleUnexpected]) as (_ & _ & Hfail).
    apply Hfail. eexists _, _. split_and!.
    + apply list_elem_of_here.
    + by apply elem_of_singleton.
    + by vm_compute.
Defined.

(** C1 as the specification has it fails: [AriaAttributes] is in the
    Type-Name Set and no declaration has that name; [HTMLAttributes] is
    in it and two declarations have that name; and the run succeeds, with
    nothing for the first and two declarations for the second in the
    output. *)
Lemma unresolved_and_repeated_names_accepted :
  (fun typeNames =>
     (bool_decide ("AriaAttributes" ∈ typeNames),
      bool_decide ("HTMLAttributes" ∈ typeNames)))
    <$> typeNameSet exampleReact = Ok (true, true)
  /\ length (declarationsNamed "AriaAttributes" exampleReact) = 0
  /\ length (declarationsNamed "HTMLAttributes" exampleReact) = 2
  /\ (fun out => length <$> jsxStatements out)
       <$> generateJsxTypes exampleInput exampleReact
     = Ok (Ok 8)
  /\ (fun out =>
        (fun statements =>
           (length (declarationsNamed "AriaAttributes" statements),
            length (declarationsNamed "HTMLAttributes" statements)))
          <$> jsxStatements out)
       <$> generateJsxTypes exampleInput exampleReact
     = Ok (Ok (0, 2)).
Proof. split_and!; by vm_compute. Qed.

(** * The Emitter *)

(** C3: an interface that comes out of the Normalizer without a property is
    emitted as a type alias of the same name, the type of which is the
    rewritten parents of the interface (the bare names of the parents
    other than [ClassAttributes]), each between parentheses, joined by
    [&]. *)
Theorem empty_interface_becomes_alias i i' :
  wellFormed i ->
  updateAttributesInterface i = Ok i' ->
  getProperties i' = [] ->
  emitNode (InterfaceNode i')
  = TypeAliasStatement
      {| alias_name := iface_name i;
         alias_typeParameters := [];
         alias_type :=
           join "&" (map (fun parent => "(" +:+ parent +:+ ")")
                       (keptParents (iface_extends i))) |}
  /\ map getExtendsText (iface_extends i') = keptParents (iface_extends i).
Proof.
  intros Hwf Hrun Hempty.
  apply updateAttributesInterface_Ok in Hrun
    as (Hname & _ & _ & Hexpr & Hargs & _); [|done].
  assert (Htexts : map getExtendsText (iface_extends i')
                   = keptParents (iface_extends i))
    by (by rewrite map_getExtendsText_bare).
  split; [|done].
  unfold emitNode, intersectionOfExtends. rewrite Hempty, Hname. simpl.
  do 2 f_equal. by rewrite <- Htexts, List.map_map.
Qed.

Lemma empty_interface_becomes_alias_witness :
  exists i',
    updateAttributesInterface exampleParents = Ok i'
    /\ emitNode (InterfaceNode i')
       = TypeAliasStatement
           {| alias_name := "AllHTMLAttributes";
              alias_typeParameters := [];
              alias_type := "(HTMLAttributes)&(AriaAttributes)" |}.
Proof.
  destruct (updateAttributesInterface exampleParents) as [i'|e] eqn:Hrun;
    [|by vm_compute in Hrun].
  exists i'. split; [reflexivity|].
  apply (empty_interface_becomes_alias exampleParents i').
  - decide_closed.
  - exact Hrun.
  - vm_compute in Hrun. injection Hrun as <-. reflexivity.
Defined.

(** An interface with a property is emitted as it is. *)
Lemma emitNode_with_properties i :
  getProperties i <> [] -> emitNode (InterfaceNode i) = InterfaceStatement i.
Proof. unfold emitNode. by destruct (getProperties i). Qed.

(** C8: an interface with no property and no parent left is emitted as a
    type alias all the same, and the type of that alias is the empty
    string; the Emitter has no test on the parents and cannot fail. *)
Theorem alias_of_nothing_is_empty i :
  getProperties i = [] ->
  iface_extends i = [] ->
  emitNode (InterfaceNode i)
  = TypeAliasStatement {| alias_name := iface_name i;
                          alias_typeParameters := [];
                          alias_type := "" |}.
Proof.
  intros Hp He. unfold emitNode, intersectionOfExtends. by rewrite Hp, He.
Qed.

Lemma alias_of_nothing_is_empty_witness :
  exists i',
    updateAttributesInterface exampleOnlyClass = Ok i'
    /\ emitNode (InterfaceNode i')
       = TypeAliasStatement {| alias_name := "Attributes";
                               alias_typeParameters := [];
                               alias_type := "" |}.
Proof.
  destruct (updateAttributesInterface exampleOnlyClass) as [i'|e] eqn:Hrun;
    [|by vm_compute in Hrun].
  exists i'. split; [reflexivity|].
  vm_compute in Hrun. injection Hrun as <-.
  apply (alias_of_nothing_is_empty
           {| iface_id := 2; iface_name := "Attributes";
              iface_typeParameters := []; iface_extends := [];
              iface_members := [] |}); reflexivity.
Defined.

(** The run goes through with such an interface, and the alias is in the
    output. *)
Example exampleReact_empty_alias :
  (fun out =>
     (fun statements =>
        existsb (fun s => match s with
                          | TypeAliasStatement t =>
                              String.eqb (alias_name t) "Attributes"
                              && String.eqb (alias_type t) ""
                          | _ => false
                          end) statements)
       <$> jsxStatements out)
    <$> generateJsxTypes exampleInput exampleReact
  = Ok (Ok true).
Proof. by vm_compute. Qed.

(** What a run that succeeds has done. *)
Lemma generateJsxTypes_Ok inputSourceFile reactSourceFile output :
  generateJsxTypes inputSourceFile reactSourceFile = Ok output ->
  exists intrinsic names extracted,
    extractIntrinsicElementsInterface reactSourceFile = Ok (intrinsic, names)
    /\ extractNodes (addAll alwaysIncluded names)
         (map (asEdited intrinsic)
            (getAllInterfacesAndTypeAliases reactSourceFile))
       = Ok extracted
    /\ output
       = editNamespace "global"
           (editNamespace "JSX"
              (fun statements =>
                 statements
                 ++ InterfaceStatement (asExtracted intrinsic extracted)
                    :: map emitNode extracted))
           inputSourceFile.
Proof.
  unfold generateJsxTypes. intros H.
  apply bind_Ok in H as (inputGlobal & _ & H).
  apply bind_Ok in H as (inputJsx & _ & H).
  apply bind_Ok in H as ([intrinsic names] & Hextract & H).
  apply bind_Ok in H as (extracted & Hnodes & H).
  injection H as <-. by exists intrinsic, names, extracted.
Qed.

(** * The run on the files *)

Section FilesFacts.
Variable parse : string -> SourceFile.
Variable getFullText : SourceFile -> string.
Variable formatText : string -> string.

(** C7: the run is a function of the texts of its two input files: two
    runs on file systems that agree on these two files end alike, with
    the same error or with the same text in the output file. *)
Theorem same_inputs_same_output files1 files2
    inputTypesFile reactTypesFile outputTypesFile :
  files1 !! inputTypesFile = files2 !! inputTypesFile ->
  files1 !! reactTypesFile = files2 !! reactTypesFile ->
  outcome (generateJsxTypesForVhtml parse getFullText formatText files1
             inputTypesFile reactTypesFile outputTypesFile) outputTypesFile
  = outcome (generateJsxTypesForVhtml parse getFullText formatText files2
               inputTypesFile reactTypesFile outputTypesFile)
      outputTypesFile.
Proof.
  intros Hin Hreact. unfold generateJsxTypesForVhtml, outcome.
  unfold addSourceFileAtPath. rewrite Hin, Hreact.
  destruct (files2 !! inputTypesFile); [|done].
  destruct (files2 !! reactTypesFile); [|done].
  cbn [mbind Result_bind].
  destruct (generateJsxTypes _ _); [|done].
  cbn [mbind Result_bind fmap Result_fmap].
  by rewrite !lookup_insert_eq.
Qed.

(** Running again after a run that succeeded, on other paths than the
    output, writes the same text again. *)
Lemma run_again files files' inputTypesFile reactTypesFile outputTypesFile :
  outputTypesFile <> inputTypesFile ->
  outputTypesFile <> reactTypesFile ->
  generateJsxTypesForVhtml parse getFullText formatText files
    inputTypesFile reactTypesFile outputTypesFile = Ok files' ->
  generateJsxTypesForVhtml parse getFullText formatText files'
    inputTypesFile reactTypesFile outputTypesFile = Ok files'.
Proof.
  intros Hi Hr Hrun. unfold generateJsxTypesForVhtml in *.
  apply bind_Ok in Hrun as (input & Hinput & Hrun).
  apply bind_Ok in Hrun as (react & Hreact & Hrun).
  apply bind_Ok in Hrun as (output & Houtput & Hrun).
  injection Hrun as <-.
  unfold addSourceFileAtPath in *.
  rewrite !lookup_insert_ne by done.
  destruct (files !! inputTypesFile); [|done]. injection Hinput as ->.
  destruct (files !! reactTypesFile); [|done]. injection Hreact as ->.
  cbn [mbind Result_bind]. rewrite Houtput. cbn [mbind Result_bind].
  by rewrite insert_insert_eq.
Qed.
End FilesFacts.

Lemma same_inputs_same_output_witness :
  outcome (generateJsxTypesForVhtml exampleParse examplePrint id
             exampleFiles "input/vhtml.d.ts"
             "node_modules/@types/react/index.d.ts" "types/index.d.ts")
    "types/index.d.ts"
  = outcome (generateJsxTypesForVhtml exampleParse examplePrint id
               exampleFilesLater "input/vhtml.d.ts"
               "node_modules/@types/react/index.d.ts" "types/index.d.ts")
      "types/index.d.ts".
Proof.
  apply (same_inputs_same_output exampleParse examplePrint id
           exampleFiles exampleFilesLater); reflexivity.
Defined.

Example exampleFiles_run :
  outcome (generateJsxTypesForVhtml exampleParse examplePrint id
             exampleFilesLater "input/vhtml.d.ts"
             "node_modules/@types/react/index.d.ts" "types/index.d.ts")
    "types/index.d.ts"
  = Ok (Some "ssjjjjjjjj").
Proof. by vm_compute. Qed.

(** * More on [normalizeAttributeType] *)

Section MoreOnTypes.
Import Regex Words RegexFacts.

Lemma matchHereCI_split p s :
  matchHereCI p s = true ->
  exists mid post, s = mid +:+ post /\ sameIgnoringCase mid p.
Proof.
  unfold sameIgnoringCase. revert s.
  induction p as [|a p IH]; intros s H.
  - by exists "", s.
  - destruct s as [|c s]; [done|]. simpl in H.
    apply andb_true_iff in H as [Hc Hrest]. apply Ascii.eqb_eq in Hc.
    destruct (IH s Hrest) as (mid & post & -> & Hmid).
    exists (String c mid), post. simpl. by rewrite Hc, Hmid.
Qed.

(** The test [/p/i.test(s)] finds [p] exactly when [s] has it, up to case. *)
Lemma testCI_contains p s :
  testCI p s = true <-> containsIgnoringCase p s.
Proof.
  split.
  - induction s as [|c s IH]; simpl; intros H.
    + rewrite orb_false_r in H.
      destruct (matchHereCI_split _ _ H) as (mid & post & Hs & Hmid).
      by exists "", mid, post.
    + apply orb_true_iff in H as [H|H].
      * destruct (matchHereCI_split _ _ H) as (mid & post & Hs & Hmid).
        by exists "", mid, post.
      * destruct (IH H) as (pre & mid & post & -> & Hmid).
        by exists (String c pre), mid, post.
  - intros (pre & mid & post & -> & Hmid).
    apply testCI_found. by apply matchHereCI_same.
Qed.

Lemma lastIsWord_app b a u :
  u <> "" -> lastIsWord b (a +:+ u) = lastIsWord false u.
Proof.
  intros Hu. revert b. induction a as [|x a IH]; intros b; simpl.
  - destruct u as [|y u]; [done|]. done.
  - apply IH.
Qed.

Lemma lastIsWord_snoc_sep b a c :
  isWordChar c = false -> lastIsWord b (a +:+ String c "") = false.
Proof. intros Hc. by rewrite lastIsWord_app. Qed.

Lemma lastIsWord_false_snoc a b :
  a <> "" -> lastIsWord b a = false ->
  exists a' c, a = a' +:+ String c "" /\ isWordChar c = false.
Proof.
  revert b. induction a as [|x a IH]; intros b Hne H; [done|].
  destruct a as [|y a].
  - simpl in H. by exists "", x.
  - destruct (IH (isWordChar x)) as (a' & c & Ha & Hc); [done..|].
    exists (String x a'), c. simpl. by rewrite <- Ha.
Qed.

Lemma tokenize_app_after_break a b :
  lastIsWord false a = false -> tokenize (a +:+ b) = tokenize a ++ tokenize b.
Proof.
  intros Ha. destruct a as [|x a]; [done|].
  destruct (lastIsWord_false_snoc (String x a) false)
    as (a' & c & Heq & Hc); [done..|].
  rewrite Heq, append_assoc. simpl.
  rewrite !tokenize_app_sep by done. by rewrite <- app_assoc.
Qed.

(** A whole word of a string is one of its tokens. *)
Lemma occursAsWord_tokens w s :
  w <> "" -> allWord w = true ->
  occursAsWord w s <-> TWord w ∈ tokenize s.
Proof.
  intros Hne Hw. split.
  - intros (pre & post & -> & Hpre & Hpost).
    rewrite tokenize_app_after_break, tokenize_word_app by done.
    apply elem_of_app. right. by left.
  - induction s as [|c s Hc IH|u s Hu0 Hu Hs IH] using string_words_ind.
    + intros H. by apply elem_of_nil in H.
    + rewrite tokenize_sep by done. intros H.
      apply elem_of_cons in H as [H|H]; [done|].
      destruct (IH H) as (pre & post & -> & Hpre & Hpost).
      exists (String c pre), post. split_and!; [done| |done].
      simpl. rewrite Hc. exact Hpre.
    + rewrite tokenize_word_app by done. intros H.
      apply elem_of_cons in H as [H|H].
      * injection H as ->. by exists "", s.
      * destruct (IH H) as (pre & post & -> & Hpre & Hpost).
        exists (u +:+ pre), post. split_and!; [|  |done].
        -- by rewrite append_assoc.
        -- destruct pre as [|x pre].
           ++ simpl in Hs. destruct w as [|a w]; [done|]. simpl in *.
              apply andb_true_iff in Hw as [Ha _]. congruence.
           ++ by rewrite lastIsWord_app, <- (lastIsWord_app false "" (String _ _)).
Qed.

Lemma concatStrings_app l1 l2 :
  concatStrings (l1 ++ l2) = concatStrings l1 +:+ concatStrings l2.
Proof.
  induction l1 as [|x l1 IH]; simpl; [done|]. by rewrite IH, append_assoc.
Qed.

Lemma replaceWord_around_separator w rep a c b :
  w <> "" -> allWord w = true -> isWordChar c = false ->
  replaceWord w rep (a +:+ String c b)
  = replaceWord w rep a +:+ String c (replaceWord w rep b).
Proof.
  intros Hne Hw Hc. rewrite !replaceWord_tokens by done.
  rewrite tokenize_app_sep by done.
  by rewrite List.map_app, concatStrings_app.
Qed.

Lemma replacedTypeNames_around_separator a c b :
  isWordChar c = false ->
  replacedTypeNames (a +:+ String c b)
  = replacedTypeNames a +:+ String c (replacedTypeNames b).
Proof.
  intros Hc. unfold replacedTypeNames.
  by rewrite !replaceWord_around_separator.
Qed.

Lemma normalizeAttributeType_plain s :
  testCI "EventHandler" s = false -> s <> "ReactNode" ->
  normalizeAttributeType s = replacedTypeNames s.
Proof.
  intros Hh Hn. unfold normalizeAttributeType. rewrite Hh.
  apply String.eqb_neq in Hn. by rewrite Hn.
Qed.

Lemma testCI_false_contains p s :
  testCI p s = false <-> ~ containsIgnoringCase p s.
Proof.
  rewrite <- testCI_contains. by destruct (testCI p s).
Qed.

(** X1: the types that the normalization leaves as they are are exactly
    those that have no [EventHandler] in them in any case, are not
    [ReactNode], and have neither [CSSProperties] nor [Booleanish] in them
    as a whole word. *)
Theorem normalizeAttributeType_fixed_points (s : string) :
  normalizeAttributeType s = s <->
  ~ containsIgnoringCase "EventHandler" s
  /\ s <> "ReactNode"
  /\ ~ occursAsWord "CSSProperties" s
  /\ ~ occursAsWord "Booleanish" s.
Proof.
  rewrite <- testCI_false_contains, !occursAsWord_tokens by done. split.
  - intros Hfix. unfold normalizeAttributeType in Hfix.
    destruct (testCI "EventHandler" s) eqn:Eh.
    { by rewrite <- Hfix in Eh. }
    destruct (String.eqb s "ReactNode") eqn:En.
    { apply String.eqb_eq in En. by rewrite En in Hfix. }
    apply String.eqb_neq in En. fold (replacedTypeNames s) in Hfix.
    split_and!; [done..| |]; rewrite <- Hfix.
    + apply replacedTypeNames_no_css.
    + apply replacedTypeNames_no_booleanish.
  - intros (Hh & Hn & Hc & Hb).
    rewrite normalizeAttributeType_plain by done.
    by apply replacedTypeNames_unchanged.
Qed.

(** X2: whatever the type, its normalization has no [EventHandler] in it
    in any case, is not [ReactNode], and has neither [CSSProperties] nor
    [Booleanish] in it as a whole word. *)
Theorem normalizeAttributeType_leaves_none (s : string) :
  ~ containsIgnoringCase "EventHandler" (normalizeAttributeType s)
  /\ normalizeAttributeType s <> "ReactNode"
  /\ ~ occursAsWord "CSSProperties" (normalizeAttributeType s)
  /\ ~ occursAsWord "Booleanish" (normalizeAttributeType s).
Proof.
  rewrite <- testCI_false_contains, !occursAsWord_tokens by done.
  unfold normalizeAttributeType.
  destruct (testCI "EventHandler" s) eqn:Eh.
  { split_and!; [done..| |]; by apply (bool_decide_unpack _). }
  destruct (String.eqb s "ReactNode") eqn:En.
  { split_and!; [done..| |]; by apply (bool_decide_unpack _). }
  apply String.eqb_neq in En. fold (replacedTypeNames s). split_and!.
  - by apply replacedTypeNames_no_handler.
  - by apply replacedTypeNames_not_node.
  - apply replacedTypeNames_no_css.
  - apply replacedTypeNames_no_booleanish.
Qed.

(** X3: a type without an event handler is normalized piece by piece
    around any character that is not a word character (a bar, a space, a
    bracket), as long as neither piece is the bare [ReactNode]. *)
Theorem normalizeAttributeType_piecewise (a b : string) (c : ascii) :
  isWordChar c = false ->
  ~ containsIgnoringCase "EventHandler" (a +:+ String c b) ->
  a <> "ReactNode" -> b <> "ReactNode" ->
  normalizeAttributeType (a +:+ String c b)
  = normalizeAttributeType a +:+ String c (normalizeAttributeType b).
Proof.
  intros Hc Hh Ha Hb. apply testCI_false_contains in Hh.
  rewrite testCI_break in Hh by done.
  apply orb_false_iff in Hh as [Hha Hhb].
  rewrite testCI_sep in Hhb by done.
  rewrite (normalizeAttributeType_plain a), (normalizeAttributeType_plain b)
    by done.
  rewrite normalizeAttributeType_plain.
  - by apply replacedTypeNames_around_separator.
  - rewrite testCI_break by done. rewrite Hha. by rewrite testCI_sep.
  - intros Heq.
    assert (H : TSep c ∈ tokenize (a +:+ String c b)).
    { rewrite tokenize_app_sep by done. apply elem_of_app. right. by left. }
    rewrite Heq in H. revert H. by apply (bool_decide_unpack (¬ _)).
Qed.

Lemma normalizeAttributeType_piecewise_witness :
  normalizeAttributeType "CSSProperties | Booleanish"
  = normalizeAttributeType "CSSProperties "
    +:+ String "|" (normalizeAttributeType " Booleanish").
Proof.
  apply (normalizeAttributeType_piecewise "CSSProperties " " Booleanish" "|").
  - reflexivity.
  - apply testCI_false_contains. reflexivity.
  - discriminate.
  - discriminate.
Defined.
End MoreOnTypes.

(** * More on the Collector *)

Lemma occursIn_weaken d l l' :
  occursIn d l -> (forall s, s ∈ l -> s ∈ l') -> occursIn d l'.
Proof.
  intros H Hsub. destruct H as [i l Hd Hin|t l Hd Hin|n body l Hin Hb|body l Hin Hb].
  - eapply occurs_interface; eauto.
  - eapply occurs_alias; eauto.
  - eapply occurs_namespace; eauto.
  - eapply occurs_block; eauto.
Qed.

Lemma collectStatement_occurs s d :
  d ∈ collectStatement s -> occursIn d [s].
Proof.
  induction s as [i|t|n body IH|body IH|text] using Statement_nested_ind;
    simpl; intros Hd.
  - apply list_elem_of_singleton in Hd.
    eapply occurs_interface; [exact Hd|by left].
  - apply list_elem_of_singleton in Hd.
    eapply occurs_alias; [exact Hd|by left].
  - apply list_elem_of_In, in_flat_map in Hd as (c & Hc & Hd).
    apply list_elem_of_In in Hc, Hd.
    eapply occurs_namespace; [by left|].
    eapply Forall_forall in IH; [|exact Hc].
    apply (occursIn_weaken d [c]); [by apply IH|].
    intros s Hs. apply list_elem_of_singleton in Hs. by subst s.
  - apply list_elem_of_In, in_flat_map in Hd as (c & Hc & Hd).
    apply list_elem_of_In in Hc, Hd.
    eapply occurs_block; [by left|].
    eapply Forall_forall in IH; [|exact Hc].
    apply (occursIn_weaken d [c]); [by apply IH|].
    intros s Hs. apply list_elem_of_singleton in Hs. by subst s.
  - by apply elem_of_nil in Hd.
Qed.

Lemma elem_of_getAll d s statements :
  s ∈ statements -> d ∈ collectStatement s ->
  d ∈ getAllInterfacesAndTypeAliases statements.
Proof.
  intros Hs Hd. apply list_elem_of_In, in_flat_map.
  exists s. split; by apply list_elem_of_In.
Qed.

(** X4: the Collector returns a declaration exactly when it is an interface
    or a type alias that stands in the statements, directly or inside
    namespaces at any depth; nothing is left out and nothing is made up. *)
Theorem collector_finds_every_declaration d statements :
  d ∈ getAllInterfacesAndTypeAliases statements <-> occursIn d statements.
Proof.
  split.
  - intros Hd. apply list_elem_of_In, in_flat_map in Hd as (s & Hs & Hd).
    apply list_elem_of_In in Hs, Hd.
    apply (occursIn_weaken d [s]); [by apply collectStatement_occurs|].
    intros s' Hs'. apply list_elem_of_singleton in Hs'. by subst s'.
  - induction 1 as [i l -> Hin|t l -> Hin|n body l Hin Hb IH|body l Hin Hb IH].
    + eapply elem_of_getAll; [exact Hin|]. by left.
    + eapply elem_of_getAll; [exact Hin|]. by left.
    + eapply elem_of_getAll; [exact Hin|]. exact IH.
    + eapply elem_of_getAll; [exact Hin|]. exact IH.
Qed.

(** * More on the Normalizer *)

Lemma toLowerChar_idempotent c : toLowerChar (toLowerChar c) = toLowerChar c.
Proof. destruct c as [[] [] [] [] [] [] [] []]; reflexivity. Qed.

Lemma toLowerCase_idempotent s : toLowerCase (toLowerCase s) = toLowerCase s.
Proof.
  induction s as [|c s IH]; simpl; [done|].
  by rewrite toLowerChar_idempotent, IH.
Qed.

Lemma isDroppedProperty_toLowerCase s :
  isDroppedProperty (toLowerCase s) = false.
Proof.
  destruct (isDroppedProperty (toLowerCase s)) eqn:E; [|done].
  pose proof (toLowerCase_idempotent s) as Hi.
  unfold isDroppedProperty in E.
  repeat (apply orb_true_iff in E as [E|E]);
    apply String.eqb_eq in E; rewrite E in Hi; discriminate Hi.
Qed.

Lemma keepsItsCase_not_dropped propName :
  keepsItsCase propName = true -> isDroppedProperty propName = false.
Proof.
  unfold keepsItsCase. intros H.
  repeat (apply orb_true_iff in H as [H|H]);
    apply String.eqb_eq in H; by subst propName.
Qed.

(** The structure that a kept property with a type ends with. *)
Lemma normalizedStructure_typed p t :
  type (getStructure p) = Some t ->
  normalizedStructure p
  = {| name := normalizedName (prop_name p);
       type := Some (normalizedType (prop_name p) t);
       hasQuestionToken := prop_hasQuestionToken p;
       isReadonly := prop_isReadonly p;
       docs := prop_docs p |}.
Proof.
  intros Ht. unfold normalizedStructure, normalizedName, normalizedType.
  rewrite (normalizeStructure_typed _ _ t) by done.
  destruct p as [id n [typeNode|] q r d]; simpl in *; [|done].
  injection Ht as <-.
  by destruct (String.eqb n "dangerouslySetInnerHTML"), (keepsItsCase n).
Qed.

(** The properties of the result, one by one. *)
Lemma updated_property_origin i i' p' :
  wellFormed i ->
  updateAttributesInterface i = Ok i' ->
  p' ∈ getProperties i' ->
  exists p t,
    p ∈ getProperties i
    /\ isDroppedProperty (prop_name p) = false
    /\ type (getStructure p) = Some t
    /\ ((prop_id p' = prop_id p
         /\ getStructure p' = normalizedStructure p)
        \/ (exists alias,
              aliasOf (prop_name p) = Some alias
              /\ getStructure p' = renamed alias (normalizedStructure p))).
Proof.
  intros Hwf Hrun Hp'.
  apply updateAttributesInterface_Ok in Hrun
    as (_ & _ & _ & _ & _ & Htyped & dups & Hmem & Hs & _); [|done].
  unfold getProperties in Hp'.
  rewrite Hmem, getPropertiesOf_app, getPropertiesOf_properties in Hp'.
  apply elem_of_app in Hp' as [Hp'|Hp'].
  - apply elem_of_getPropertiesOf, list_elem_of_In, in_flat_map in Hp'
      as ([p|text] & Hin & Hp'); simpl in Hp'.
    + destruct (isDroppedProperty (prop_name p)) eqn:Hd; [done|].
      destruct Hp' as [Hp'|[]]. injection Hp' as <-.
      apply list_elem_of_In, elem_of_getPropertiesOf in Hin.
      destruct (isUntyped_false p) as [t Ht]; [|done|].
      { by eapply find_none_elem_of in Htyped. }
      exists p, t. split_and!; [done..|]. left. split; [done|].
      apply getStructure_setStructure.
    + by destruct Hp' as [Hp'|[]].
  - assert (Hg : getStructure p' ∈ flat_map duplicateOf (iface_members i)).
    { rewrite <- Hs. apply list_elem_of_In, in_map. by apply list_elem_of_In. }
    apply list_elem_of_In, in_flat_map in Hg as ([p|text] & Hin & Hg);
      simpl in Hg; [|done].
    destruct (aliasOf (prop_name p)) as [alias|] eqn:Ea; [|done].
    destruct Hg as [Hg|[]].
    apply list_elem_of_In, elem_of_getPropertiesOf in Hin.
    pose proof (aliasOf_kept _ _ Ea) as (Hd & _ & _).
    destruct (isUntyped_false p) as [t Ht]; [|done|].
    { by eapply find_none_elem_of in Htyped. }
    exists p, t. split_and!; [done..|]. right. by exists alias.
Qed.

(** X5: the Normalizer accepts an interface exactly when every parent is
    [ClassAttributes] or one of the five expected parents and every
    property that is not dropped has a type annotation. *)
Theorem normalizer_accepts_iff i :
  wellFormed i ->
  (exists i', updateAttributesInterface i = Ok i') <->
  (forall e, e ∈ iface_extends i ->
             ext_expression e = "ClassAttributes"
             \/ isAllowedParent (ext_expression e) = true)
  /\ (forall p, p ∈ getProperties i ->
                isDroppedProperty (prop_name p) = true
                \/ is_Some (prop_typeNode p)).
Proof.
  intros Hwf. pose proof (updateAttributesInterface_Fatal i Hwf) as H.
  split.
  - intros [i' Hrun]. rewrite Hrun in H.
    destruct (List.find isUnexpectedParent _) eqn:Ee; [done|].
    destruct (List.find isUntyped _) eqn:Ep; [done|]. split.
    + intros e He.
      assert (Hx : isUnexpectedParent (ext_expression e) = false).
      { eapply find_none_elem_of; [exact Ee|].
        apply list_elem_of_In, in_map. by apply list_elem_of_In. }
      unfold isUnexpectedParent in Hx.
      destruct (String.eqb (ext_expression e) "ClassAttributes") eqn:Ec.
      * left. by apply String.eqb_eq.
      * right. simpl in Hx. by apply negb_false_iff.
    + intros p Hp. eapply find_none_elem_of in Ep; [|exact Hp].
      unfold isUntyped in Ep.
      destruct (isDroppedProperty (prop_name p)); [by left|right].
      simpl in Ep. by apply negb_false_iff, bool_decide_eq_true in Ep.
  - intros [He Hp].
    destruct (List.find isUnexpectedParent _) as [x|] eqn:Ee.
    { exfalso. apply List.find_some in Ee as [Hin Hx].
      apply in_map_iff in Hin as (e & <- & Hin).
      apply list_elem_of_In in Hin. unfold isUnexpectedParent in Hx.
      destruct (He e Hin) as [Hc|Ha].
      - rewrite Hc in Hx. done.
      - rewrite Ha in Hx. by rewrite andb_false_r in Hx. }
    destruct (List.find isUntyped _) as [p|] eqn:Ep; [|done].
    exfalso. apply List.find_some in Ep as [Hin Hx].
    apply list_elem_of_In in Hin. unfold isUntyped in Hx.
    destruct (Hp p Hin) as [Hd|Ht].
    + by rewrite Hd in Hx.
    + rewrite bool_decide_eq_true_2 in Hx by done.
      by rewrite andb_false_r in Hx.
Qed.

Lemma normalizer_accepts_iff_witness :
  exists i', updateAttributesInterface exampleLabel = Ok i'.
Proof.
  apply (normalizer_accepts_iff exampleLabel); [decide_closed|].
  split.
  - intros e He. apply list_elem_of_In in He. simpl in He.
    destruct He as [<-|[]]. right. reflexivity.
  - intros p Hp. apply list_elem_of_In in Hp. simpl in Hp.
    destruct Hp as [<-|[<-|[<-|[<-|[<-|[]]]]]]; right; eexists; reflexivity.
Defined.

Lemma find_first {A} (f : A -> bool) before x after :
  Forall (fun a => f a = false) before -> f x = true ->
  List.find f (before ++ x :: after) = Some x.
Proof.
  intros Hb Hx. induction Hb as [|b before Hb _ IH]; simpl.
  - by rewrite Hx.
  - by rewrite Hb.
Qed.

(** X6: the failure names the first parent, in the order of the clause,
    that is neither [ClassAttributes] nor expected; nothing about the
    properties is looked at before. *)
Theorem first_unexpected_parent_is_reported i before e after :
  wellFormed i ->
  iface_extends i = before ++ e :: after ->
  Forall (fun x => ext_expression x = "ClassAttributes"
                   \/ isAllowedParent (ext_expression x) = true) before ->
  ext_expression e <> "ClassAttributes" ->
  isAllowedParent (ext_expression e) = false ->
  updateAttributesInterface i
  = Fatal (AssertionError
             ("Interface " +:+ iface_name i
              +:+ " has unexpected parent interface: " +:+ ext_expression e)).
Proof.
  intros Hwf Hexts Hbefore Hc Ha.
  pose proof (updateAttributesInterface_Fatal i Hwf) as H.
  rewrite Hexts, List.map_app in H. simpl in H.
  rewrite find_first in H; [exact H| |].
  - apply Forall_forall. intros x Hx.
    apply list_elem_of_In, in_map_iff in Hx as (y & <- & Hy).
    apply list_elem_of_In in Hy. eapply Forall_forall in Hbefore; [|exact Hy].
    unfold isUnexpectedParent. destruct Hbefore as [Hy'|Hy'].
    + by rewrite Hy'.
    + rewrite Hy'. apply andb_false_r.
  - unfold isUnexpectedParent. apply String.eqb_neq in Hc.
    by rewrite Hc, Ha.
Qed.

Lemma first_unexpected_parent_is_reported_witness :
  updateAttributesInterface exampleUnexpected
  = Fatal (AssertionError
             "Interface Props has unexpected parent interface: React.HTMLAttributes").
Proof.
  apply (first_unexpected_parent_is_reported exampleUnexpected []
           {| ext_id := 1; ext_expression := "React.HTMLAttributes";
              ext_typeArguments := "<T>" |} []).
  - decide_closed.
  - reflexivity.
  - constructor.
  - discriminate.
  - reflexivity.
Defined.

(** X7: no property of a normalized interface has one of the four dropped
    names ([defaultChecked], [defaultValue],
    [suppressContentEditableWarning], [suppressHydrationWarning]). *)
Theorem dropped_names_are_gone i i' p' :
  wellFormed i ->
  updateAttributesInterface i = Ok i' ->
  p' ∈ getProperties i' ->
  isDroppedProperty (prop_name p') = false.
Proof.
  intros Hwf Hrun Hp'.
  destruct (updated_property_origin i i' p' Hwf Hrun Hp')
    as (p & t & _ & Hd & Ht & [[_ Hs]|(alias & Ha & Hs)]);
    change (prop_name p') with (name (getStructure p'));
    rewrite Hs, (normalizedStructure_typed p t Ht); simpl.
  - unfold normalizedName. destruct (keepsItsCase (prop_name p)); [done|].
    apply isDroppedProperty_toLowerCase.
  - apply aliasOf_Some in Ha as [[_ ->]|[_ ->]]; reflexivity.
Qed.

Lemma dropped_names_are_gone_witness :
  exists i',
    updateAttributesInterface exampleLabel = Ok i'
    /\ Forall (fun p' => isDroppedProperty (prop_name p') = false)
         (getProperties i').
Proof.
  destruct (updateAttributesInterface exampleLabel) as [i'|e] eqn:Hrun;
    [|by vm_compute in Hrun].
  exists i'. split; [reflexivity|]. apply Forall_forall. intros p' Hp'.
  apply (dropped_names_are_gone exampleLabel i' p');
    [decide_closed|exact Hrun|exact Hp'].
Defined.

(** X8: every property name of a normalized interface is [className],
    [dangerouslySetInnerHTML] or [htmlFor], or has no upper-case ASCII
    letter in it: lower-casing it changes nothing. *)
Theorem names_are_lower_case i i' p' :
  wellFormed i ->
  updateAttributesInterface i = Ok i' ->
  p' ∈ getProperties i' ->
  keepsItsCase (prop_name p') = true
  \/ toLowerCase (prop_name p') = prop_name p'.
Proof.
  intros Hwf Hrun Hp'.
  destruct (updated_property_origin i i' p' Hwf Hrun Hp')
    as (p & t & _ & Hd & Ht & [[_ Hs]|(alias & Ha & Hs)]);
    change (prop_name p') with (name (getStructure p'));
    rewrite Hs, (normalizedStructure_typed p t Ht); simpl.
  - unfold normalizedName.
    destruct (keepsItsCase (prop_name p)) eqn:Ek; [by left|right].
    apply toLowerCase_idempotent.
  - right. apply aliasOf_Some in Ha as [[_ ->]|[_ ->]]; reflexivity.
Qed.

Lemma names_are_lower_case_witness :
  exists i',
    updateAttributesInterface exampleLabel = Ok i'
    /\ Forall (fun p' => keepsItsCase (prop_name p') = true
                         \/ toLowerCase (prop_name p') = prop_name p')
         (getProperties i').
Proof.
  destruct (updateAttributesInterface exampleLabel) as [i'|e] eqn:Hrun;
    [|by vm_compute in Hrun].
  exists i'. split; [reflexivity|]. apply Forall_forall. intros p' Hp'.
  apply (names_are_lower_case exampleLabel i' p');
    [decide_closed|exact Hrun|exact Hp'].
Defined.

Lemma otherMembers_app l1 l2 :
  otherMembers (l1 ++ l2) = otherMembers l1 ++ otherMembers l2.
Proof. apply omap_app. Qed.

Lemma otherMembers_processed members :
  otherMembers (flat_map processedMember members) = otherMembers members.
Proof.
  induction members as [|[p|text] l IH]; simpl; [done| |].
  - rewrite otherMembers_app, IH.
    by destruct (isDroppedProperty (prop_name p)).
  - change (otherMembers (OtherMember text :: ?l))
      with (text :: otherMembers l). by rewrite IH.
Qed.

Lemma otherMembers_properties ps :
  otherMembers (map PropertyMember ps) = [].
Proof. by induction ps. Qed.

(** X9: the members of an interface that are not property signatures
    (methods, index signatures and the like) go through the Normalizer
    untouched and in their order. *)
Theorem other_members_are_kept i i' :
  wellFormed i ->
  updateAttributesInterface i = Ok i' ->
  otherMembers (iface_members i') = otherMembers (iface_members i).
Proof.
  intros Hwf Hrun.
  apply updateAttributesInterface_Ok in Hrun
    as (_ & _ & _ & _ & _ & _ & dups & Hmem & _); [|done].
  rewrite Hmem, otherMembers_app, otherMembers_processed,
    otherMembers_properties. apply app_nil_r.
Qed.

(** X10: every property that is not dropped, with an ASCII name and a
    type written on one line, stays in the normalized interface, as the
    same node, with its name in lower case (but for [className],
    [dangerouslySetInnerHTML] and [htmlFor]), its type normalized (but for
    [dangerouslySetInnerHTML], which keeps its type as it is), and its
    question mark and [readonly] as they were. *)
Theorem kept_property_is_normalized i i' p :
  wellFormed i ->
  updateAttributesInterface i = Ok i' ->
  p ∈ getProperties i ->
  isDroppedProperty (prop_name p) = false ->
  isAscii (prop_name p) = true ->
  (forall t, type (getStructure p) = Some t -> isSingleLine t = true) ->
  exists t p',
    type (getStructure p) = Some t
    /\ p' ∈ getProperties i'
    /\ prop_id p' = prop_id p
    /\ prop_name p'
       = (if keepsItsCase (prop_name p) then prop_name p
          else toLowerCase (prop_name p))
    /\ type (getStructure p')
       = Some (if String.eqb (prop_name p) "dangerouslySetInnerHTML"
               then t else normalizeAttributeType t)
    /\ prop_hasQuestionToken p' = prop_hasQuestionToken p
    /\ prop_isReadonly p' = prop_isReadonly p.
Proof.
  intros Hwf Hrun Hp Hd _ _.
  apply updateAttributesInterface_Ok in Hrun
    as (_ & _ & _ & _ & _ & Htyped & dups & Hmem & _); [|done].
  destruct (isUntyped_false p) as [t Ht]; [|done|].
  { by eapply find_none_elem_of in Htyped. }
  exists t, (setStructure (normalizedStructure p) p).
  rewrite (normalizedStructure_typed p t Ht).
  split_and!; [done| |done..].
  - unfold getProperties. rewrite Hmem, getPropertiesOf_app.
    apply elem_of_app. left. apply elem_of_getPropertiesOf.
    apply elem_of_getPropertiesOf in Hp.
    apply list_elem_of_In, in_flat_map.
    exists (PropertyMember p). split; [by apply list_elem_of_In|].
    simpl. rewrite Hd, (normalizedStructure_typed p t Ht). by left.
Qed.

Lemma kept_property_is_normalized_witness :
  exists i' p',
    updateAttributesInterface exampleOnClick = Ok i'
    /\ p' ∈ getProperties i'
    /\ prop_name p' = "onclick"
    /\ type (getStructure p') = Some "string"
    /\ prop_hasQuestionToken p' = true.
Proof.
  destruct (updateAttributesInterface exampleOnClick) as [i'|e] eqn:Hrun;
    [|by vm_compute in Hrun].
  destruct (kept_property_is_normalized exampleOnClick i'
              {| prop_id := 1; prop_name := "onClick";
                 prop_typeNode := Some (Syntax "MouseEventHandler<T>" []);
                 prop_hasQuestionToken := true; prop_isReadonly := false;
                 prop_docs := [] |})
    as (t & p' & Ht & Hp' & _ & Hn & Hty & Hq & _).
  - decide_closed.
  - exact Hrun.
  - apply list_elem_of_In. simpl. left. reflexivity.
  - reflexivity.
  - reflexivity.
  - intros t [= <-]. reflexivity.
  - injection Ht as <-. exists i', p'.
    split_and!; [reflexivity|exact Hp'|exact Hn|exact Hty|exact Hq].
Defined.

Lemma other_members_are_kept_witness :
  exists i',
    updateAttributesInterface exampleWithMethod = Ok i'
    /\ otherMembers (iface_members i') = ["focus(): void;"].
Proof.
  destruct (updateAttributesInterface exampleWithMethod) as [i'|e] eqn:Hrun;
    [|by vm_compute in Hrun].
  exists i'. split; [reflexivity|].
  apply (other_members_are_kept exampleWithMethod i');
    [decide_closed|exact Hrun].
Defined.

(** * More on the Extractor and on the run *)

Lemma getNamespaceOrThrow_missing name statements :
  noNamespace name statements ->
  getNamespaceOrThrow name statements = Fatal (NamespaceNotFound name).
Proof.
  unfold noNamespace. induction statements as [|s l IH]; intros H; [done|].
  assert (Hl : forall body, NamespaceStatement name body ∉ l).
  { intros body Hin. apply (H body). by right. }
  destruct s as [i|t|n body|body|text]; simpl; try by apply IH.
  destruct (String.eqb n name) eqn:En; [|by apply IH].
  apply String.eqb_eq in En. subst n. exfalso. apply (H body). by left.
Qed.

Lemma getNamespaceOrThrow_first name before body after :
  noNamespace name before ->
  getNamespaceOrThrow name (before ++ NamespaceStatement name body :: after)
  = Ok body.
Proof.
  unfold noNamespace. induction before as [|s l IH]; intros H; simpl.
  - by rewrite String.eqb_refl.
  - assert (Hl : forall b, NamespaceStatement name b ∉ l).
    { intros b Hin. apply (H b). by right. }
    destruct s as [i|t|n b|b|text]; try by apply IH.
    destruct (String.eqb n name) eqn:En; [|by apply IH].
    apply String.eqb_eq in En. subst n. exfalso. apply (H b). by left.
Qed.

Lemma getNamespaceOrThrow_Ok name statements body :
  getNamespaceOrThrow name statements = Ok body ->
  exists before after,
    statements = before ++ NamespaceStatement name body :: after
    /\ noNamespace name before.
Proof.
  unfold noNamespace.
  induction statements as [|s l IH]; simpl; intros H; [done|].
  assert (Hother :
    getNamespaceOrThrow name l = Ok body ->
    (forall b, s <> NamespaceStatement name b) ->
    exists before after,
      s :: l = before ++ NamespaceStatement name body :: after
      /\ forall b, NamespaceStatement name b ∉ before).
  { intros Hl Hs. destruct (IH Hl) as (before & after & -> & Hb).
    exists (s :: before), after. split; [done|].
    intros b Hin. apply elem_of_cons in Hin as [Hin|Hin]; [|by apply (Hb b)].
    by apply (Hs b). }
  destruct s as [i|t|n b|b|text]; try (by apply Hother).
  destruct (String.eqb n name) eqn:En.
  - apply String.eqb_eq in En. subst n. injection H as ->.
    exists [], l. split; [done|]. intros b Hin. by apply elem_of_nil in Hin.
  - apply Hother; [done|]. intros b' [= -> _].
    by rewrite String.eqb_refl in En.
Qed.

Lemma editNamespace_first name f before body after :
  noNamespace name before ->
  editNamespace name f (before ++ NamespaceStatement name body :: after)
  = before ++ NamespaceStatement name (f body) :: after.
Proof.
  unfold noNamespace. induction before as [|s l IH]; intros H; simpl.
  - by rewrite String.eqb_refl.
  - assert (Hl : forall b, NamespaceStatement name b ∉ l).
    { intros b Hin. apply (H b). by right. }
    destruct s as [i|t|n b|b|text]; try by rewrite IH.
    destruct (String.eqb n name) eqn:En; [|by rewrite IH].
    apply String.eqb_eq in En. subst n. exfalso. apply (H b). by left.
Qed.

(** X11: the Extractor looks for [JSX] in the first [global] block of the
    file only: when that block has no [JSX] namespace the run fails,
    whatever comes after it (a second [global] block with the namespace
    included). *)
Theorem extractor_reads_first_global_only before globalBody after :
  noNamespace "global" before ->
  noNamespace "JSX" globalBody ->
  extractIntrinsicElementsInterface
    (before ++ NamespaceStatement "global" globalBody :: after)
  = Fatal (NamespaceNotFound "JSX").
Proof.
  intros Hg Hj. unfold extractIntrinsicElementsInterface, getIntrinsicElements.
  rewrite getNamespaceOrThrow_first by done. cbn [mbind Result_bind].
  by rewrite getNamespaceOrThrow_missing.
Qed.

Ltac no_namespace :=
  let body := fresh "body" in
  let H := fresh "H" in
  intros body H; apply list_elem_of_In in H; simpl in H;
  repeat (destruct H as [H|H]; [discriminate H|]); exact H.

Lemma extractor_reads_first_global_only_witness :
  extractIntrinsicElementsInterface exampleTwoGlobals
  = Fatal (NamespaceNotFound "JSX").
Proof.
  apply (extractor_reads_first_global_only []
           [OtherStatement "interface Window { }"]
           [NamespaceStatement "global"
              [NamespaceStatement "JSX"
                 [InterfaceStatement exampleIntrinsicElements]]]);
    no_namespace.
Defined.

Section TemplateFacts.
Variable parse : string -> SourceFile.
Variable getFullText : SourceFile -> string.
Variable formatText : string -> string.

(** X12: on a template without [global.JSX] (no [global] namespace among
    its statements, or no [JSX] namespace in the first one) the run ends
    once the two files are loaded: with the error of the missing file when
    the source library is not there, and otherwise with the error of the
    missing namespace, whatever the source library contains; the
    Extractor has not run by then, and no file is written. *)
Theorem run_fails_fast_on_template files
    inputTypesFile reactTypesFile outputTypesFile text :
  files !! inputTypesFile = Some text ->
  (noNamespace "global" (parse text) ->
   generateJsxTypesForVhtml parse getFullText formatText files
     inputTypesFile reactTypesFile outputTypesFile
   = match files !! reactTypesFile with
     | Some _ => Fatal (NamespaceNotFound "global")
     | None => Fatal (FileNotFound reactTypesFile)
     end)
  /\ (forall before globalBody after,
        parse text = before ++ NamespaceStatement "global" globalBody :: after ->
        noNamespace "global" before ->
        noNamespace "JSX" globalBody ->
        generateJsxTypesForVhtml parse getFullText formatText files
          inputTypesFile reactTypesFile outputTypesFile
        = match files !! reactTypesFile with
          | Some _ => Fatal (NamespaceNotFound "JSX")
          | None => Fatal (FileNotFound reactTypesFile)
          end).
Proof.
  intros Hin. unfold generateJsxTypesForVhtml, addSourceFileAtPath.
  rewrite Hin. cbn [mbind Result_bind]. split.
  - intros H. destruct (files !! reactTypesFile); [|done].
    cbn [mbind Result_bind]. unfold generateJsxTypes.
    by rewrite getNamespaceOrThrow_missing.
  - intros before globalBody after Hparse Hg Hj.
    destruct (files !! reactTypesFile); [|done].
    cbn [mbind Result_bind]. unfold generateJsxTypes. rewrite Hparse.
    rewrite getNamespaceOrThrow_first by done. cbn [mbind Result_bind].
    by rewrite getNamespaceOrThrow_missing.
Qed.
End TemplateFacts.

Lemma run_fails_fast_on_template_witness :
  generateJsxTypesForVhtml exampleRepositoryParse examplePrint id
    exampleRepositoryFiles "input/vhtml.d.ts"
    "node_modules/@types/react/index.d.ts" "types/index.d.ts"
  = Fatal (NamespaceNotFound "global")
  /\ generateJsxTypesForVhtml exampleRepositoryParse examplePrint id
       exampleTemplateOnly "input/vhtml.d.ts"
       "node_modules/@types/react/index.d.ts" "types/index.d.ts"
     = Fatal (FileNotFound "node_modules/@types/react/index.d.ts").
Proof.
  split.
  - apply (run_fails_fast_on_template exampleRepositoryParse examplePrint id
             exampleRepositoryFiles "input/vhtml.d.ts"
             "node_modules/@types/react/index.d.ts" "types/index.d.ts"
             "repository template" eq_refl).
    change (noNamespace "global" exampleRepositoryTemplate). no_namespace.
  - apply (run_fails_fast_on_template exampleRepositoryParse examplePrint id
             exampleTemplateOnly "input/vhtml.d.ts"
             "node_modules/@types/react/index.d.ts" "types/index.d.ts"
             "repository template" eq_refl).
    change (noNamespace "global" exampleRepositoryTemplate). no_namespace.
Defined.

(** What a successful Extractor returns. *)
Lemma extractIntrinsicElementsInterface_Ok sourceFile i i' names :
  getIntrinsicElements sourceFile = Ok i ->
  NoDup (map prop_id (getProperties i)) ->
  extractIntrinsicElementsInterface sourceFile = Ok (i', names) ->
  (forall p, p ∈ getProperties i -> is_Some (targetOf p))
  /\ i' = withMembers i (map retargeted (iface_members i))
  /\ names = list_to_set (omap targetOf (getProperties i)).
Proof.
  intros Hi Hnd Hrun. unfold extractIntrinsicElementsInterface in Hrun.
  rewrite Hi in Hrun. cbn [mbind Result_bind] in Hrun.
  unfold getProperties in *. rewrite <- nodeIds_members in Hnd.
  pose proof (extractProperties_loop (iface_members i) [] ∅ Hnd) as Hloop.
  cbn [app] in Hloop.
  destruct (List.find hasNoTarget _) eqn:Ef.
  { destruct Hloop as [e He]. by rewrite He in Hrun. }
  rewrite Hloop in Hrun. cbn [mbind Result_bind] in Hrun.
  injection Hrun as <- <-. split_and!; [|done|].
  - by apply find_hasNoTarget_None.
  - by rewrite (left_id_L ∅ (∪)).
Qed.

Lemma targetOf_not_excluded p text :
  targetOf p = Some text -> text <> "DetailedHTMLProps".
Proof.
  unfold targetOf. destruct (prop_typeNode p) as [typeNode|]; [|done].
  simpl. intros H.
  apply firstTarget_Some in H as (_ & l & r & _ & _ & _ & _ & _ & Hn & ->).
  exact Hn.
Qed.

(** X13: the Extractor changes nothing but the types: the properties of
    [IntrinsicElements] keep their names and their order, the other
    members stay; the names that it returns are exactly the types that the
    properties now have, and [DetailedHTMLProps] is never one of them. *)
Theorem extractor_changes_types_only sourceFile i i' names :
  getIntrinsicElements sourceFile = Ok i ->
  NoDup (map prop_id (getProperties i)) ->
  extractIntrinsicElementsInterface sourceFile = Ok (i', names) ->
  map prop_name (getProperties i') = map prop_name (getProperties i)
  /\ otherMembers (iface_members i') = otherMembers (iface_members i)
  /\ (forall text,
        text ∈ names <->
        exists p', p' ∈ getProperties i'
                   /\ type (getStructure p') = Some text)
  /\ "DetailedHTMLProps" ∉ names.
Proof.
  intros Hi Hnd Hrun.
  destruct (extractIntrinsicElementsInterface_Ok _ _ _ _ Hi Hnd Hrun)
    as (Hall & -> & ->).
  unfold getProperties in *. simpl. rewrite getPropertiesOf_retargeted.
  split_and!.
  - rewrite List.map_map. apply map_ext_in. intros p Hp.
    unfold retargetedProperty. by destruct (targetOf p).
  - apply otherMembers_retargeted.
  - intros text. rewrite elem_of_list_to_set, list_elem_of_omap. split.
    + intros (p & Hp & Ht). exists (retargetedProperty p). split.
      * apply list_elem_of_In, in_map. by apply list_elem_of_In.
      * unfold retargetedProperty. by rewrite Ht.
    + intros (p' & Hp' & Ht).
      apply list_elem_of_In, in_map_iff in Hp' as (p & <- & Hp).
      apply list_elem_of_In in Hp. exists p. split; [done|].
      destruct (Hall p Hp) as [text' Ht']. unfold retargetedProperty in Ht.
      rewrite Ht' in Ht. simpl in Ht. by injection Ht as <-.
  - rewrite elem_of_list_to_set, list_elem_of_omap.
    intros (p & _ & Ht). by apply targetOf_not_excluded in Ht.
Qed.

Lemma extractor_changes_types_only_witness :
  exists i' names,
    extractIntrinsicElementsInterface exampleReact = Ok (i', names)
    /\ map prop_name (getProperties i') = ["a"; "svg"; "view"]
    /\ "DetailedHTMLProps" ∉ names.
Proof.
  destruct (extractIntrinsicElementsInterface exampleReact)
    as [[i' names]|e] eqn:Hrun; [|by vm_compute in Hrun].
  destruct (extractor_changes_types_only exampleReact
              exampleIntrinsicElements i' names)
    as (Hn & _ & _ & Hd); [reflexivity|decide_closed|exact Hrun|].
  exists i', names. split_and!; [reflexivity|exact Hn|exact Hd].
Defined.

(** X14: the two shapes that the Extractor is written for.  Under
    [React.DetailedHTMLProps<React.X<E>, E>] and under [React.X<E>] the
    traversal stops at [X], for every [X] other than [DetailedHTMLProps]
    and every [E]. *)
Theorem extractor_shapes x element :
  x <> "DetailedHTMLProps" ->
  forEachDescendant targetInterfaceIdentifier (detailedProps x element)
  = Some (Identifier x)
  /\ forEachDescendant targetInterfaceIdentifier (plainProps x element)
     = Some (Identifier x).
Proof.
  intros Hx. apply String.eqb_neq in Hx.
  unfold detailedProps, plainProps. simpl. by rewrite Hx.
Qed.

Lemma extractor_shapes_witness :
  forEachDescendant targetInterfaceIdentifier
    (detailedProps "AnchorHTMLAttributes" "HTMLAnchorElement")
  = Some (Identifier "AnchorHTMLAttributes")
  /\ forEachDescendant targetInterfaceIdentifier
       (plainProps "AnchorHTMLAttributes" "HTMLAnchorElement")
     = Some (Identifier "AnchorHTMLAttributes").
Proof.
  apply (extractor_shapes "AnchorHTMLAttributes" "HTMLAnchorElement").
  discriminate.
Defined.

(** * More on the second pass and on the output *)

Lemma typeAliasesOf_cons_alias t l :
  typeAliasesOf (TypeAliasNode t :: l) = t :: typeAliasesOf l.
Proof. reflexivity. Qed.

Lemma typeAliasesOf_cons_interface i l :
  typeAliasesOf (InterfaceNode i :: l) = typeAliasesOf l.
Proof. reflexivity. Qed.

(** X15: type aliases go through the second pass as they are: the aliases
    among the extracted declarations are the aliases of the source library
    whose name is in the Type-Name Set, unchanged and in their order, and
    each is emitted as that same alias. *)
Theorem type_aliases_are_verbatim typeNames all extracted :
  extractNodes typeNames all = Ok extracted ->
  typeAliasesOf extracted
  = List.filter (fun t => bool_decide (alias_name t ∈ typeNames))
      (typeAliasesOf all)
  /\ Forall (fun t => emitNode (TypeAliasNode t) = TypeAliasStatement t)
       (typeAliasesOf extracted).
Proof.
  intros Hrun. split; [|by apply Forall_forall].
  revert extracted Hrun.
  induction all as [|n all IH]; intros extracted Hrun; simpl in Hrun.
  - by injection Hrun as <-.
  - destruct n as [i|t]; simpl in Hrun.
    + rewrite typeAliasesOf_cons_interface.
      destruct (bool_decide (iface_name i ∈ typeNames)); [|by apply IH].
      apply bind_Ok in Hrun as (i' & _ & Hrun).
      apply bind_Ok in Hrun as (rest & Hrest & Hrun).
      injection Hrun as <-. rewrite typeAliasesOf_cons_interface.
      by apply IH.
    + rewrite typeAliasesOf_cons_alias. cbn [List.filter].
      destruct (bool_decide (alias_name t ∈ typeNames)); [|by apply IH].
      apply bind_Ok in Hrun as (rest & Hrest & Hrun).
      injection Hrun as <-. rewrite typeAliasesOf_cons_alias.
      f_equal. by apply IH.
Qed.

Lemma type_aliases_are_verbatim_witness :
  exists extracted,
    extractNodes {[ "HTMLAttributeReferrerPolicy"; "SVGProps" ]}
      (getAllInterfacesAndTypeAliases exampleReact) = Ok extracted
    /\ typeAliasesOf extracted = [exampleReferrerPolicy].
Proof.
  destruct (extractNodes {[ "HTMLAttributeReferrerPolicy"; "SVGProps" ]}
              (getAllInterfacesAndTypeAliases exampleReact))
    as [extracted|e] eqn:Hrun; [|by vm_compute in Hrun].
  exists extracted. split; [reflexivity|].
  destruct (type_aliases_are_verbatim _ _ _ Hrun) as [Ha _].
  rewrite Ha. by vm_compute.
Defined.

Lemma elem_of_addAll x l (s : gset string) :
  x ∈ addAll l s <-> x ∈ l \/ x ∈ s.
Proof.
  unfold addAll. revert s. induction l as [|y l IH]; intros s; simpl.
  - split; [by right|]. intros [H|H]; [by apply elem_of_nil in H|done].
  - rewrite IH, elem_of_union, elem_of_singleton, elem_of_cons. tauto.
Qed.

Lemma updateAttributesInterface_id i i' :
  updateAttributesInterface i = Ok i' -> iface_id i' = iface_id i.
Proof.
  unfold updateAttributesInterface. intros H.
  apply bind_Ok in H as (exts & _ & H).
  apply bind_Ok in H as (members & _ & H).
  by injection H as <-.
Qed.

Lemma getInterfaceOrThrow_name name statements i :
  getInterfaceOrThrow name statements = Ok i -> iface_name i = name.
Proof.
  induction statements as [|s l IH]; simpl; [done|].
  destruct s as [j|t|n b|b|text]; try done.
  destruct (String.eqb (iface_name j) name) eqn:En; [|done].
  intros [= <-]. by apply String.eqb_eq.
Qed.

Lemma extractIntrinsicElementsInterface_name sourceFile i names :
  extractIntrinsicElementsInterface sourceFile = Ok (i, names) ->
  iface_name i = "IntrinsicElements".
Proof.
  unfold extractIntrinsicElementsInterface, getIntrinsicElements. intros H.
  apply bind_Ok in H as (i0 & Hi & H).
  apply bind_Ok in Hi as (g & _ & Hi).
  apply bind_Ok in Hi as (j & _ & Hi).
  apply getInterfaceOrThrow_name in Hi.
  apply bind_Ok in H as ([members names'] & _ & H).
  by injection H as <- <-.
Qed.

(** The origin of an extracted declaration. *)
Lemma extractNodes_origin typeNames all extracted d :
  extractNodes typeNames all = Ok extracted ->
  d ∈ extracted ->
  exists n, n ∈ all /\ getName n ∈ typeNames
            /\ match n with
               | InterfaceNode i =>
                   exists i', updateAttributesInterface i = Ok i'
                              /\ d = InterfaceNode i'
               | TypeAliasNode _ => d = n
               end.
Proof.
  revert extracted. induction all as [|n all IH]; intros extracted Hrun Hd;
    simpl in Hrun.
  - injection Hrun as <-. by apply elem_of_nil in Hd.
  - assert (Hrest : forall rest,
              extractNodes typeNames all = Ok rest -> d ∈ rest ->
              exists n0, n0 ∈ n :: all /\ getName n0 ∈ typeNames
                /\ match n0 with
                   | InterfaceNode i =>
                       exists i', updateAttributesInterface i = Ok i'
                                  /\ d = InterfaceNode i'
                   | TypeAliasNode _ => d = n0
                   end).
    { intros rest Hr Hin. destruct (IH rest Hr Hin) as (n0 & Hn0 & Hrest).
      exists n0. split; [by right|done]. }
    destruct (bool_decide (getName n ∈ typeNames)) eqn:En; [|by eapply Hrest].
    apply bool_decide_eq_true in En.
    destruct n as [i|t].
    + apply bind_Ok in Hrun as (i' & Hi & Hrun).
      apply bind_Ok in Hrun as (rest & Hr & Hrun).
      injection Hrun as <-.
      apply elem_of_cons in Hd as [->|Hd]; [|by eapply Hrest].
      exists (InterfaceNode i). split_and!; [by left|done|by exists i'].
    + apply bind_Ok in Hrun as (rest & Hr & Hrun).
      injection Hrun as <-.
      apply elem_of_cons in Hd as [->|Hd]; [|by eapply Hrest].
      exists (TypeAliasNode t). split_and!; [by left|done..].
Qed.

(** The interface that line 267 reads: it is called [IntrinsicElements],
    and it is the interface that the Extractor has returned unless that name
    is one of those that the second pass extracts. *)
Lemma asExtracted_cases intrinsic typeNames all extracted :
  iface_name intrinsic = "IntrinsicElements" ->
  extractNodes typeNames (map (asEdited intrinsic) all) = Ok extracted ->
  iface_name (asExtracted intrinsic extracted) = "IntrinsicElements"
  /\ ("IntrinsicElements" ∉ typeNames ->
      asExtracted intrinsic extracted = intrinsic).
Proof.
  intros Hname Hnodes. unfold asExtracted.
  destruct (List.find (sameInterface intrinsic) extracted) as [d|] eqn:Ef;
    [|done].
  apply List.find_some in Ef as [Hd Hs]. apply list_elem_of_In in Hd.
  destruct (extractNodes_origin _ _ _ _ Hnodes Hd) as (n & Hn & Hin & Ho).
  apply list_elem_of_In, in_map_iff in Hn as (n0 & <- & _).
  unfold asEdited in *.
  destruct (sameInterface intrinsic n0) eqn:Es0.
  - destruct Ho as (i' & Hi' & ->). cbn [getName] in Hin.
    rewrite Hname in Hin. split; [|done].
    by rewrite (updateAttributesInterface_name _ _ Hi').
  - exfalso. destruct n0 as [i0|t0].
    + destruct Ho as (i' & Hi' & ->). simpl in Hs, Es0.
      apply updateAttributesInterface_id in Hi'. rewrite Hi' in Hs.
      by rewrite Hs in Es0.
    + by subst d.
Qed.

(** A run on two trees that succeeds returns the first with statements
    added at the end of its first [global.JSX]. *)
Lemma generateJsxTypes_template inputSourceFile reactSourceFile output :
  generateJsxTypes inputSourceFile reactSourceFile = Ok output ->
  exists before globalBefore jsx globalAfter after intrinsic names extracted,
    noNamespace "global" before
    /\ noNamespace "JSX" globalBefore
    /\ inputSourceFile
       = before
         ++ NamespaceStatement "global"
              (globalBefore ++ NamespaceStatement "JSX" jsx :: globalAfter)
         :: after
    /\ extractIntrinsicElementsInterface reactSourceFile
       = Ok (intrinsic, names)
    /\ extractNodes (addAll alwaysIncluded names)
         (map (asEdited intrinsic)
            (getAllInterfacesAndTypeAliases reactSourceFile))
       = Ok extracted
    /\ output
       = before
         ++ NamespaceStatement "global"
              (globalBefore
               ++ NamespaceStatement "JSX"
                    (jsx ++ InterfaceStatement
                              (asExtracted intrinsic extracted)
                         :: map emitNode extracted)
               :: globalAfter)
         :: after.
Proof.
  intros Hrun.
  destruct (generateJsxTypes_Ok _ _ _ Hrun)
    as (intrinsic & names & extracted & Hextract & Hnodes & ->).
  unfold generateJsxTypes in Hrun.
  apply bind_Ok in Hrun as (inputGlobal & Hg & Hrun).
  apply bind_Ok in Hrun as (inputJsx & Hj & _).
  apply getNamespaceOrThrow_Ok in Hg as (before & after & -> & Hb).
  apply getNamespaceOrThrow_Ok in Hj as (globalBefore & globalAfter & -> & Hgb).
  exists before, globalBefore, inputJsx, globalAfter, after,
    intrinsic, names, extracted.
  split_and!; [done..|].
  rewrite editNamespace_first by done.
  by rewrite editNamespace_first.
Qed.

Lemma sameSignature_all ps : Forall2 sameSignature ps ps.
Proof. by apply Forall_Forall2_diag, Forall_forall. Qed.

(** * More on the run on the files *)

Section MoreOnFiles.
Variable parse : string -> SourceFile.
Variable getFullText : SourceFile -> string.
Variable formatText : string -> string.

Lemma generateJsxTypesForVhtml_Ok files files'
    inputTypesFile reactTypesFile outputTypesFile :
  generateJsxTypesForVhtml parse getFullText formatText files
    inputTypesFile reactTypesFile outputTypesFile = Ok files' ->
  exists inputText reactText output,
    files !! inputTypesFile = Some inputText
    /\ files !! reactTypesFile = Some reactText
    /\ generateJsxTypes (parse inputText) (parse reactText) = Ok output
    /\ files' = <[outputTypesFile := formatText (getFullText output)]> files.
Proof.
  unfold generateJsxTypesForVhtml, addSourceFileAtPath. intros Hrun.
  destruct (files !! inputTypesFile) as [inputText|]; [|done].
  destruct (files !! reactTypesFile) as [reactText|]; [|done].
  cbn [mbind Result_bind] in Hrun.
  apply bind_Ok in Hrun as (output & Houtput & Hrun).
  injection Hrun as <-. by exists inputText, reactText, output.
Qed.

(** X16: a run on two different files that succeeds writes the template
    with statements added at the end of its first [global.JSX] namespace
    and nothing else changed: the statements around the two namespaces and
    those already in [JSX] stay where they are.  What is added is an
    interface [IntrinsicElements], with the property signatures of the
    interface that the passes over the source library have left, followed
    by one statement for each declaration that the second pass has
    extracted from the source library as the first pass left it. *)
Theorem output_is_template_with_additions files files'
    inputTypesFile reactTypesFile outputTypesFile :
  inputTypesFile <> reactTypesFile ->
  generateJsxTypesForVhtml parse getFullText formatText files
    inputTypesFile reactTypesFile outputTypesFile = Ok files' ->
  exists inputText reactText before globalBefore jsx globalAfter after
         intrinsic names extracted printed,
    files !! inputTypesFile = Some inputText
    /\ files !! reactTypesFile = Some reactText
    /\ noNamespace "global" before
    /\ noNamespace "JSX" globalBefore
    /\ parse inputText
       = before
         ++ NamespaceStatement "global"
              (globalBefore ++ NamespaceStatement "JSX" jsx :: globalAfter)
         :: after
    /\ extractIntrinsicElementsInterface (parse reactText)
       = Ok (intrinsic, names)
    /\ extractNodes (addAll alwaysIncluded names)
         (map (asEdited intrinsic)
            (getAllInterfacesAndTypeAliases (parse reactText)))
       = Ok extracted
    /\ iface_name printed = "IntrinsicElements"
    /\ Forall2 sameSignature
         (getProperties (asExtracted intrinsic extracted))
         (getProperties printed)
    /\ files'
       = <[outputTypesFile :=
             formatText
               (getFullText
                  (before
                   ++ NamespaceStatement "global"
                        (globalBefore
                         ++ NamespaceStatement "JSX"
                              (jsx ++ InterfaceStatement printed
                                   :: map emitNode extracted)
                         :: globalAfter)
                   :: after))]> files.
Proof.
  intros _ Hrun.
  apply generateJsxTypesForVhtml_Ok in Hrun
    as (inputText & reactText & output & Hin & Hreact & Hrun & ->).
  apply generateJsxTypes_template in Hrun
    as (before & globalBefore & jsx & globalAfter & after & intrinsic
        & names & extracted & Hb & Hgb & Hparse & Hextract & Hnodes & ->).
  exists inputText, reactText, before, globalBefore, jsx, globalAfter, after,
    intrinsic, names, extracted, (asExtracted intrinsic extracted).
  split_and!; try done.
  - eapply asExtracted_cases; [|exact Hnodes].
    by eapply extractIntrinsicElementsInterface_name.
  - apply sameSignature_all.
Qed.

(** X17: in a run on two different files that succeeds, unless
    [IntrinsicElements] is itself a name of the Type-Name Set (the type of
    one of its own properties), the interface [IntrinsicElements] of the
    output has the property signatures that the Extractor left: the
    interface has not gone through the Normalizer, so that its tag names
    keep their case and none is dropped. *)
Theorem intrinsic_elements_is_not_normalized files files'
    inputTypesFile reactTypesFile outputTypesFile reactText intrinsic names :
  inputTypesFile <> reactTypesFile ->
  generateJsxTypesForVhtml parse getFullText formatText files
    inputTypesFile reactTypesFile outputTypesFile = Ok files' ->
  files !! reactTypesFile = Some reactText ->
  extractIntrinsicElementsInterface (parse reactText) = Ok (intrinsic, names) ->
  "IntrinsicElements" ∉ names ->
  exists inputText jsx output extracted printed,
    files !! inputTypesFile = Some inputText
    /\ jsxStatements (parse inputText) = Ok jsx
    /\ files' !! outputTypesFile = Some (formatText (getFullText output))
    /\ jsxStatements output
       = Ok (jsx ++ InterfaceStatement printed :: map emitNode extracted)
    /\ iface_name printed = "IntrinsicElements"
    /\ Forall2 sameSignature (getProperties intrinsic) (getProperties printed).
Proof.
  intros _ Hrun Hreact Hextract Hnot.
  apply generateJsxTypesForVhtml_Ok in Hrun
    as (inputText & reactText' & output & Hin & Hreact' & Hrun & ->).
  rewrite Hreact in Hreact'. injection Hreact' as <-.
  apply generateJsxTypes_template in Hrun
    as (before & globalBefore & jsx & globalAfter & after & intrinsic'
        & names' & extracted & Hb & Hgb & Hparse & Hextract' & Hnodes & ->).
  rewrite Hextract in Hextract'. injection Hextract' as <- <-.
  pose proof (extractIntrinsicElementsInterface_name _ _ _ Hextract) as Hname.
  destruct (asExtracted_cases intrinsic _ _ _ Hname Hnodes) as [_ Hsame].
  assert (Hout : "IntrinsicElements" ∉ addAll alwaysIncluded names).
  { intros [H|H]%elem_of_addAll; [|done].
    revert H. by apply (bool_decide_unpack (¬ _)). }
  specialize (Hsame Hout).
  eexists inputText, jsx, _, extracted, intrinsic.
  split_and!; [done| |by rewrite lookup_insert_eq| |done|].
  - rewrite Hparse. unfold jsxStatements.
    rewrite getNamespaceOrThrow_first by done. cbn [mbind Result_bind].
    by rewrite getNamespaceOrThrow_first.
  - unfold jsxStatements.
    rewrite getNamespaceOrThrow_first by done. cbn [mbind Result_bind].
    rewrite getNamespaceOrThrow_first by done. by rewrite Hsame.
  - apply sameSignature_all.
Qed.
End MoreOnFiles.

Lemma output_is_template_with_additions_witness :
  exists files' intrinsic names extracted printed,
    generateJsxTypesForVhtml exampleParse examplePrint id exampleFiles
      "input/vhtml.d.ts" "node_modules/@types/react/index.d.ts"
      "types/index.d.ts" = Ok files'
    /\ extractIntrinsicElementsInterface exampleReact = Ok (intrinsic, names)
    /\ extractNodes (addAll alwaysIncluded names)
         (map (asEdited intrinsic)
            (getAllInterfacesAndTypeAliases exampleReact))
       = Ok extracted
    /\ iface_name printed = "IntrinsicElements"
    /\ Forall2 sameSignature
         (getProperties (asExtracted intrinsic extracted))
         (getProperties printed)
    /\ files' !! "types/index.d.ts"
       = Some (examplePrint
                 [OtherStatement "export = vhtml;";
                  NamespaceStatement "global"
                    [NamespaceStatement "JSX"
                       (OtherStatement "type Element = string;"
                        :: InterfaceStatement printed
                        :: map emitNode extracted)]]).
Proof.
  destruct (generateJsxTypesForVhtml exampleParse examplePrint id exampleFiles
              "input/vhtml.d.ts" "node_modules/@types/react/index.d.ts"
              "types/index.d.ts") as [files'|e] eqn:Hrun;
    [|by vm_compute in Hrun].
  destruct (output_is_template_with_additions exampleParse examplePrint id
              exampleFiles files' "input/vhtml.d.ts"
              "node_modules/@types/react/index.d.ts" "types/index.d.ts")
    as (inputText & reactText & before & globalBefore & jsx & globalAfter
        & after & intrinsic & names & extracted & printed & Hin & Hreact
        & Hb & Hgb & Hparse & Hextract & Hnodes & Hname & Hprops & ->);
    [discriminate|exact Hrun|].
  vm_compute in Hin. injection Hin as <-.
  vm_compute in Hreact. injection Hreact as <-.
  change (exampleParse "react") with exampleReact in Hextract, Hnodes.
  change (exampleParse "template") with exampleInput in Hparse.
  assert (Hshape : before = [OtherStatement "export = vhtml;"]
                   /\ globalBefore = [] /\ globalAfter = [] /\ after = []
                   /\ jsx = [OtherStatement "type Element = string;"]).
  { unfold exampleInput in Hparse.
    destruct before as [|s0 [|s1 before]].
    - discriminate Hparse.
    - injection Hparse as <- Hg <-.
      destruct globalBefore as [|g0 globalBefore].
      + injection Hg as <- <-. done.
      + injection Hg as <- Hg. by destruct globalBefore.
    - injection Hparse as <- <- Hrest. exfalso. apply (Hb _ ltac:(right; left)). }
  destruct Hshape as (-> & -> & -> & -> & ->).
  eexists _, intrinsic, names, extracted, printed.
  split_and!; [reflexivity|exact Hextract|exact Hnodes|exact Hname
               |exact Hprops|].
  by rewrite lookup_insert_eq.
Defined.

Lemma intrinsic_elements_is_not_normalized_witness :
  exists files' intrinsic names output extracted printed,
    generateJsxTypesForVhtml exampleParse examplePrint id exampleFiles
      "input/vhtml.d.ts" "node_modules/@types/react/index.d.ts"
      "types/index.d.ts" = Ok files'
    /\ extractIntrinsicElementsInterface exampleReact = Ok (intrinsic, names)
    /\ files' !! "types/index.d.ts" = Some (examplePrint output)
    /\ jsxStatements output
       = Ok (OtherStatement "type Element = string;"
             :: InterfaceStatement printed :: map emitNode extracted)
    /\ map prop_name (getProperties intrinsic) = ["a"; "svg"; "view"]
    /\ Forall2 sameSignature (getProperties intrinsic) (getProperties printed).
Proof.
  destruct (generateJsxTypesForVhtml exampleParse examplePrint id exampleFiles
              "input/vhtml.d.ts" "node_modules/@types/react/index.d.ts"
              "types/index.d.ts") as [files'|e] eqn:Hrun;
    [|by vm_compute in Hrun].
  destruct (extractIntrinsicElementsInterface exampleReact)
    as [[intrinsic names]|e] eqn:Hextract; [|by vm_compute in Hextract].
  destruct (intrinsic_elements_is_not_normalized exampleParse examplePrint id
              exampleFiles files' "input/vhtml.d.ts"
              "node_modules/@types/react/index.d.ts" "types/index.d.ts"
              "react" intrinsic names)
    as (inputText & jsx & output & extracted & printed & Hin & Hjsx & Hout
        & Hstatements & _ & Hprops).
  - discriminate.
  - exact Hrun.
  - reflexivity.
  - exact Hextract.
  - vm_compute in Hextract. injection Hextract as <- <-.
    by apply (bool_decide_unpack (¬ _)).
  - vm_compute in Hin. injection Hin as <-.
    vm_compute in Hjsx. injection Hjsx as <-.
    exists files', intrinsic, names, output, extracted, printed.
    split_and!; [reflexivity|reflexivity|exact Hout|exact Hstatements|
                  |exact Hprops].
    vm_compute in Hextract. by injection Hextract as <- <-.
Defined.
